(** * Mehu assistant: transcript coalescing and live-session controller

    A shallow embedding of the event handlers of the [App] component
    (the transcript update [addMessage], the live-session callbacks
    [onopen] / [onmessage] / [onclose] / [onerror], [stopLiveSession] and
    the text form handler [handleSendText]) together with the properties
    the specification states about them.

    Conventions of the embedding:
    - a JavaScript string is the list of its UTF-16 code units;
    - React state cells and [useRef] cells are the fields of one record
      [State]; a handler is a function from the state before to the state
      after, paired with the calls it makes on external objects;
    - [new Date()], [Math.random().toString()] and the playback clock
      [ctx.currentTime] are read from the environment and appear as
      arguments of the handler that reads them;
    - a callback runs to completion before the next one is dispatched;
      [handleSendText], which waits for a network reply, is split at its
      [await];
    - times (seconds) are exact rationals; no rounding is modelled;
    - a handler that can fail with an exception returns [option]. *)

From Stdlib Require Import String Ascii Bool Arith NArith ZArith List.
From Stdlib Require Import QArith Qminmax Lia Lqa.
Import ListNotations.

Close Scope Q_scope.
Local Open Scope list_scope.

(* ------------------------------------------------------------------ *)
(** ** JavaScript strings *)

Definition jsstring : Type := list N.

(** A literal of the source, as code units (the literals used below are
    ASCII, one code unit per character). *)
Definition lit (s : string) : jsstring :=
  map N_of_ascii (list_ascii_of_string s).

Fixpoint startsWith (t p : jsstring) : bool :=
  match p, t with
  | [], _ => true
  | _ :: _, [] => false
  | a :: p', b :: t' => N.eqb a b && startsWith t' p'
  end.

(** [String.prototype.includes]: [p] occurs in [t] at some position. *)
Fixpoint includes (t p : jsstring) : bool :=
  startsWith t p ||
  match t with
  | [] => false
  | _ :: t' => includes t' p
  end.

(** The propositional reading of containment. *)
Definition substring (p t : jsstring) : Prop :=
  exists a b, t = a ++ p ++ b.

(** ECMAScript WhiteSpace and LineTerminator code points, the ones
    [String.prototype.trim] strips. *)
Definition isWhiteSpace (c : N) : bool :=
  (N.eqb c 9 || N.eqb c 10 || N.eqb c 11 || N.eqb c 12 || N.eqb c 13
   || N.eqb c 32 || N.eqb c 160 || N.eqb c 5760
   || (N.leb 8192 c && N.leb c 8202)
   || N.eqb c 8232 || N.eqb c 8233 || N.eqb c 8239 || N.eqb c 8287
   || N.eqb c 12288 || N.eqb c 65279)%bool.

Fixpoint trimStart (s : jsstring) : jsstring :=
  match s with
  | [] => []
  | c :: s' => if isWhiteSpace c then trimStart s' else s
  end.

Definition trimEnd (s : jsstring) : jsstring := rev (trimStart (rev s)).

Definition trim (s : jsstring) : jsstring := trimEnd (trimStart s).

(** Truthiness of a string: the empty string is the only falsy one. *)
Definition truthy (s : jsstring) : bool :=
  match s with [] => false | _ :: _ => true end.

(** A string is blank when every code unit of it is white space. *)
Definition blank (s : jsstring) : bool := forallb isWhiteSpace s.

(* ------------------------------------------------------------------ *)
(** ** types.ts *)

Inductive Role : Type := user | mehu.

Definition role_eqb (a b : Role) : bool :=
  match a, b with
  | user, user | mehu, mehu => true
  | _, _ => false
  end.

Record Message : Type := {
  id : jsstring;
  role : Role;
  text : jsstring;
  timestamp : Z
}.

(* ------------------------------------------------------------------ *)
(** ** The transcript: [addMessage] *)

(** One reading of [new Date()] and of [Math.random().toString()]. *)
Record Fresh : Type := {
  date : Z;
  random : jsstring
}.

(** [prev[prev.length - 1]]: [undefined] on the empty array. *)
Definition lastOf (prev : list Message) : option Message :=
  match prev with
  | [] => None
  | _ :: _ => nth_error prev (length prev - 1)
  end.

(** [prev.slice(0, -1)]. *)
Definition slice_0_m1 (prev : list Message) : list Message :=
  firstn (length prev - 1) prev.

(** The guard of [addMessage]:
    [lastMsg && lastMsg.role === role && text.includes(lastMsg.text)]. *)
Definition coalesces (r : Role) (t : jsstring) (prev : list Message) : bool :=
  match lastOf prev with
  | Some lastMsg => role_eqb (role lastMsg) r && includes t (text lastMsg)
  | None => false
  end.

(** The updater passed to [setMessages] by [addMessage]. *)
Definition addMessage (env : Fresh) (r : Role) (t : jsstring)
    (prev : list Message) : list Message :=
  match lastOf prev with
  | Some lastMsg =>
      if role_eqb (role lastMsg) r && includes t (text lastMsg)
      then slice_0_m1 prev ++
           [ {| id := id lastMsg; role := role lastMsg;
                text := t; timestamp := date env |} ]
      else prev ++
           [ {| id := random env; role := r; text := t;
                timestamp := date env |} ]
  | None =>
      prev ++
      [ {| id := random env; role := r; text := t; timestamp := date env |} ]
  end.

(** A run of partial transcriptions of one speaker, applied in order. *)
Fixpoint addMessages (r : Role) (evs : list (Fresh * jsstring))
    (prev : list Message) : list Message :=
  match evs with
  | [] => prev
  | (env, t) :: evs' => addMessages r evs' (addMessage env r t prev)
  end.

(** Each text of the run contains the one before it; [t0] is the text
    that precedes the run. *)
Fixpoint growing (t0 : jsstring) (evs : list (Fresh * jsstring)) : Prop :=
  match evs with
  | [] => True
  | (_, t) :: evs' => substring t0 t /\ growing t evs'
  end.

(** The last text of a run, [t0] when the run is empty. *)
Fixpoint lastText (t0 : jsstring) (evs : list (Fresh * jsstring)) : jsstring :=
  match evs with
  | [] => t0
  | (_, t) :: evs' => lastText t evs'
  end.

(* ------------------------------------------------------------------ *)
(** ** The state of the [App] component *)

Inductive Status : Type := idle | listening | speaking.

(** Identity of an object created at run time (an [AudioContext], a live
    session, an [AudioBufferSourceNode]). *)
Definition Handle : Type := nat.

Record State : Type := {
  isLive : bool;
  messages : list Message;
  inputText : jsstring;
  mehuStatus : Status;
  audioContextRef : option Handle;
  outputAudioContextRef : option Handle;
  sessionRef : option Handle;
  nextStartTimeRef : Q;
  (** [Set<AudioBufferSourceNode>], in insertion order. *)
  sourcesRef : list Handle;
  (** Number of objects created so far; the next [new] yields this
      handle.  Not a variable of the source: it stands for object
      identity. *)
  allocated : Handle
}.

(** The state on mount: the initial values of [useState] and [useRef]. *)
Definition initial : State := {|
  isLive := false;
  messages := [];
  inputText := [];
  mehuStatus := idle;
  audioContextRef := None;
  outputAudioContextRef := None;
  sessionRef := None;
  nextStartTimeRef := 0%Q;
  sourcesRef := [];
  allocated := 0
|}.

Definition setIsLive (v : bool) (s : State) : State :=
  {| isLive := v; messages := messages s; inputText := inputText s;
     mehuStatus := mehuStatus s; audioContextRef := audioContextRef s;
     outputAudioContextRef := outputAudioContextRef s;
     sessionRef := sessionRef s; nextStartTimeRef := nextStartTimeRef s;
     sourcesRef := sourcesRef s; allocated := allocated s |}.

(** [setMessages] with a functional updater. *)
Definition setMessages (f : list Message -> list Message) (s : State) : State :=
  {| isLive := isLive s; messages := f (messages s); inputText := inputText s;
     mehuStatus := mehuStatus s; audioContextRef := audioContextRef s;
     outputAudioContextRef := outputAudioContextRef s;
     sessionRef := sessionRef s; nextStartTimeRef := nextStartTimeRef s;
     sourcesRef := sourcesRef s; allocated := allocated s |}.

Definition setInputText (v : jsstring) (s : State) : State :=
  {| isLive := isLive s; messages := messages s; inputText := v;
     mehuStatus := mehuStatus s; audioContextRef := audioContextRef s;
     outputAudioContextRef := outputAudioContextRef s;
     sessionRef := sessionRef s; nextStartTimeRef := nextStartTimeRef s;
     sourcesRef := sourcesRef s; allocated := allocated s |}.

Definition setMehuStatus (v : Status) (s : State) : State :=
  {| isLive := isLive s; messages := messages s; inputText := inputText s;
     mehuStatus := v; audioContextRef := audioContextRef s;
     outputAudioContextRef := outputAudioContextRef s;
     sessionRef := sessionRef s; nextStartTimeRef := nextStartTimeRef s;
     sourcesRef := sourcesRef s; allocated := allocated s |}.

Definition set_audioContextRef (v : option Handle) (s : State) : State :=
  {| isLive := isLive s; messages := messages s; inputText := inputText s;
     mehuStatus := mehuStatus s; audioContextRef := v;
     outputAudioContextRef := outputAudioContextRef s;
     sessionRef := sessionRef s; nextStartTimeRef := nextStartTimeRef s;
     sourcesRef := sourcesRef s; allocated := allocated s |}.

Definition set_outputAudioContextRef (v : option Handle) (s : State) : State :=
  {| isLive := isLive s; messages := messages s; inputText := inputText s;
     mehuStatus := mehuStatus s; audioContextRef := audioContextRef s;
     outputAudioContextRef := v;
     sessionRef := sessionRef s; nextStartTimeRef := nextStartTimeRef s;
     sourcesRef := sourcesRef s; allocated := allocated s |}.

Definition set_sessionRef (v : option Handle) (s : State) : State :=
  {| isLive := isLive s; messages := messages s; inputText := inputText s;
     mehuStatus := mehuStatus s; audioContextRef := audioContextRef s;
     outputAudioContextRef := outputAudioContextRef s;
     sessionRef := v; nextStartTimeRef := nextStartTimeRef s;
     sourcesRef := sourcesRef s; allocated := allocated s |}.

Definition set_nextStartTimeRef (v : Q) (s : State) : State :=
  {| isLive := isLive s; messages := messages s; inputText := inputText s;
     mehuStatus := mehuStatus s; audioContextRef := audioContextRef s;
     outputAudioContextRef := outputAudioContextRef s;
     sessionRef := sessionRef s; nextStartTimeRef := v;
     sourcesRef := sourcesRef s; allocated := allocated s |}.

Definition set_sourcesRef (v : list Handle) (s : State) : State :=
  {| isLive := isLive s; messages := messages s; inputText := inputText s;
     mehuStatus := mehuStatus s; audioContextRef := audioContextRef s;
     outputAudioContextRef := outputAudioContextRef s;
     sessionRef := sessionRef s; nextStartTimeRef := nextStartTimeRef s;
     sourcesRef := v; allocated := allocated s |}.

(** [new]: hands out the next handle. *)
Definition alloc (s : State) : Handle * State :=
  (allocated s,
   {| isLive := isLive s; messages := messages s; inputText := inputText s;
      mehuStatus := mehuStatus s; audioContextRef := audioContextRef s;
      outputAudioContextRef := outputAudioContextRef s;
      sessionRef := sessionRef s; nextStartTimeRef := nextStartTimeRef s;
      sourcesRef := sourcesRef s; allocated := S (allocated s) |}).

(** Calls the handlers make on objects outside the component. *)
Inductive Effect : Type :=
| PreventDefault                              (* e.preventDefault() *)
| SessionClose (session : Handle)             (* session.close() *)
| AudioContextClose (ctx : Handle)            (* ctx.close() *)
| SessionSend (session : Handle) (t : jsstring)  (* session.send({parts}) *)
| GenerateContent (contents : jsstring)       (* ai.models.generateContent *)
| SourceStart (source : Handle) (when : Q)    (* source.start(when) *)
| SourceStop (source : Handle).               (* source.stop() *)

(** [Set.prototype.add], [Set.prototype.delete]. *)
Definition set_add (x : Handle) (l : list Handle) : list Handle :=
  if existsb (Nat.eqb x) l then l else l ++ [x].

Definition set_delete (x : Handle) (l : list Handle) : list Handle :=
  filter (fun y => negb (Nat.eqb x y)) l.

(* ------------------------------------------------------------------ *)
(** ** [startLiveSession] and the session callbacks *)

(** [startLiveSession] up to its first [await]: the liveness guard and
    the creation of the two audio contexts (input at 16 kHz, output at
    24 kHz). *)
Definition startLiveSession_begin (s : State) : State :=
  if isLive s then s
  else
    let (input, s1) := alloc s in
    let s2 := set_audioContextRef (Some input) s1 in
    let (output, s3) := alloc s2 in
    set_outputAudioContextRef (Some output) s3.

(** [sessionRef.current = await sessionPromise], the promise resolved
    with [session]. *)
Definition startLiveSession_connected (session : Handle) (s : State) : State :=
  set_sessionRef (Some session) s.

(** The [catch] block of [startLiveSession]. *)
Definition startLiveSession_catch (s : State) : State :=
  setIsLive false s.

(** [onopen]: its two setters (lines 98-99).  The microphone graph it
    then builds on [audioContextRef.current!] (lines 101-113) is not part
    of [State]; building it throws when that reference is [null], after
    the setters have run, so the state [onopen] leaves is this one in
    either case. *)
Definition onopen (s : State) : State :=
  setMehuStatus listening (setIsLive true s).

Definition onclose (s : State) : State := setIsLive false s.

Definition onerror (s : State) : State := setIsLive false s.

(** A [LiveServerMessage], reduced to the four fields [onmessage] reads.
    [audio] is present when [inlineData.data] is a non-empty string; it
    carries the [duration] of the buffer [decodeAudioData] returns for
    that payload ([services/audio-utils] is not part of the sources at
    hand). *)
Record LiveServerMessage : Type := {
  audio : option Q;
  interrupted : bool;
  inputTranscription : option jsstring;
  outputTranscription : option jsstring
}.

(** Lines 116-132: schedule the decoded chunk.  [currentTime] is the
    reading of [ctx.currentTime].  [None]: [ctx] is [null] and the read of
    [ctx.currentTime] throws. *)
Definition playChunk (currentTime : Q) (message : LiveServerMessage)
    (s : State) : option (State * list Effect) :=
  match audio message with
  | None => Some (s, [])
  | Some duration =>
      let s1 := setMehuStatus speaking s in
      match outputAudioContextRef s1 with
      | None => None
      | Some ctx =>
          let s2 :=
            set_nextStartTimeRef (Qmax (nextStartTimeRef s1) currentTime) s1 in
          let (source, s3) := alloc s2 in
          let start := nextStartTimeRef s3 in
          let s4 := set_nextStartTimeRef (nextStartTimeRef s3 + duration)%Q s3 in
          let s5 := set_sourcesRef (set_add source (sourcesRef s4)) s4 in
          Some (s5, [SourceStart source start])
      end
  end.

(** Lines 134-139: barge-in. *)
Definition interrupt (message : LiveServerMessage) (s : State)
    : State * list Effect :=
  if interrupted message then
    let stops := map SourceStop (sourcesRef s) in
    let s1 := set_sourcesRef [] s in
    let s2 := set_nextStartTimeRef 0%Q s1 in
    (setMehuStatus idle s2, stops)
  else (s, []).

(** Lines 141-146: the two transcription branches. *)
Definition transcribe (envIn envOut : Fresh) (message : LiveServerMessage)
    (s : State) : State :=
  let s1 :=
    match inputTranscription message with
    | Some t => setMessages (addMessage envIn user t) s
    | None => s
    end in
  match outputTranscription message with
  | Some t => setMessages (addMessage envOut mehu t) s1
  | None => s1
  end.

Definition onmessage (currentTime : Q) (envIn envOut : Fresh)
    (message : LiveServerMessage) (s : State) : option (State * list Effect) :=
  match playChunk currentTime message s with
  | None => None
  | Some (s1, e1) =>
      let (s2, e2) := interrupt message s1 in
      Some (transcribe envIn envOut message s2, e1 ++ e2)
  end.

(** The ['ended'] listener of a scheduled source (lines 125-128). *)
Definition onended (source : Handle) (s : State) : State :=
  let s1 := set_sourcesRef (set_delete source (sourcesRef s)) s in
  match sourcesRef s1 with
  | [] => setMehuStatus idle s1
  | _ :: _ => s1
  end.

(** One delivery of the [onmessage] callback. *)
Record Delivery : Type := {
  at_clock : Q;
  env_in : Fresh;
  env_out : Fresh;
  payload : LiveServerMessage
}.

Definition deliver (d : Delivery) (s : State) : option (State * list Effect) :=
  onmessage (at_clock d) (env_in d) (env_out d) (payload d) s.

(** Messages handled one after the other; the effects accumulate. *)
Fixpoint deliverAll (ds : list Delivery) (s : State)
    : option (State * list Effect) :=
  match ds with
  | [] => Some (s, [])
  | d :: ds' =>
      match deliver d s with
      | None => None
      | Some (s1, e1) =>
          match deliverAll ds' s1 with
          | None => None
          | Some (s2, e2) => Some (s2, e1 ++ e2)
          end
      end
  end.

(** The start time handed to [source.start] in a list of effects. *)
Fixpoint scheduledStart (es : list Effect) : option Q :=
  match es with
  | [] => None
  | SourceStart _ t :: _ => Some t
  | _ :: es' => scheduledStart es'
  end.

(** The sources stopped in a list of effects. *)
Fixpoint stoppedSources (es : list Effect) : list Handle :=
  match es with
  | [] => []
  | SourceStop n :: es' => n :: stoppedSources es'
  | _ :: es' => stoppedSources es'
  end.

(* ------------------------------------------------------------------ *)
(** ** [stopLiveSession] *)

Definition stopLiveSession (s : State) : State * list Effect :=
  let (s1, e1) :=
    match sessionRef s with
    | Some session => (set_sessionRef None s, [SessionClose session])
    | None => (s, [])
    end in
  let (s2, e2) :=
    match audioContextRef s1 with
    | Some ctx => (set_audioContextRef None s1, [AudioContextClose ctx])
    | None => (s1, [])
    end in
  (setMehuStatus idle (setIsLive false s2), e1 ++ e2).

(** The "Flush Memory" button. *)
Definition clearMessages (s : State) : State := setMessages (fun _ => []) s.

(* ------------------------------------------------------------------ *)
(** ** [handleSendText] *)

(** How the awaited [generateContent] call settles: resolved with a
    response whose [text] may be [undefined], or rejected. *)
Inductive Completion : Type :=
| Resolved (responseText : option jsstring)
| Rejected.

Definition fallbackText : jsstring :=
  lit "I had a little brain freeze. Can you say that again, bestie?".

(** [response.text || '...']. *)
Definition replyText (responseText : option jsstring) : jsstring :=
  match responseText with
  | Some t => if truthy t then t else lit "..."
  | None => lit "..."
  end.

(** [isLive && sessionRef.current]: the open session, if there is one
    and the component holds it for live. *)
Definition liveSession (s : State) : option Handle :=
  if isLive s then sessionRef s else None.

(** Where [handleSendText] stands when it returns or first suspends. *)
Inductive Submission : Type :=
| Returned (s : State) (es : list Effect)
| Awaiting (s : State) (es : list Effect).

(** Lines 184-200: up to the [await] of the completion request. *)
Definition handleSendText_submit (envUser : Fresh) (s : State) : Submission :=
  if negb (truthy (trim (inputText s))) then Returned s [PreventDefault]
  else
    let userMsg := inputText s in
    let s1 := setInputText [] s in
    let s2 := setMessages (addMessage envUser user userMsg) s1 in
    match liveSession s with
    | Some session =>
        Returned s2 [PreventDefault; SessionSend session userMsg]
    | None => Awaiting s2 [PreventDefault; GenerateContent userMsg]
    end.

(** Lines 201-204: the rest of the [try] block once the request has
    settled, and the [catch] block.  [None] would be an exception leaving
    the handler. *)
Definition handleSendText_settle (envReply : Fresh) (c : Completion)
    (s : State) : option State :=
  let try_block : option State :=
    match c with
    | Resolved responseText =>
        Some (setMessages (addMessage envReply mehu (replyText responseText)) s)
    | Rejected => None
    end in
  match try_block with
  | Some s' => Some s'
  | None => Some (setMessages (addMessage envReply mehu fallbackText) s)
  end.

(** [handleSendText] with nothing else dispatched while the request is
    pending. *)
Definition handleSendText (envUser envReply : Fresh) (c : Completion)
    (s : State) : option (State * list Effect) :=
  match handleSendText_submit envUser s with
  | Returned s1 es => Some (s1, es)
  | Awaiting s1 es =>
      match handleSendText_settle envReply c s1 with
      | Some s2 => Some (s2, es)
      | None => None
      end
  end.

(** Number of completion requests, of session sends, in a list of effects. *)
Definition isRequest (e : Effect) : bool :=
  match e with GenerateContent _ => true | _ => false end.

Definition isSend (e : Effect) : bool :=
  match e with SessionSend _ _ => true | _ => false end.

Definition requests (es : list Effect) : nat := length (filter isRequest es).

Definition sends (es : list Effect) : nat := length (filter isSend es).

(** A run of chunks, none with the interruption flag, each arriving
    when the playback clock is not past the cursor; [cursor] is the
    cursor the run starts from. *)
Fixpoint onTime (cursor : Q) (ds : list Delivery) : Prop :=
  match ds with
  | [] => True
  | d :: ds' =>
      match audio (payload d) with
      | Some duration =>
          interrupted (payload d) = false /\
          (at_clock d <= cursor)%Q /\
          onTime (cursor + duration)%Q ds'
      | None => False
      end
  end.

(** The cursor after such a run: the durations added one by one. *)
Fixpoint advance (cursor : Q) (ds : list Delivery) : Q :=
  match ds with
  | [] => cursor
  | d :: ds' =>
      match audio (payload d) with
      | Some duration => advance (cursor + duration)%Q ds'
      | None => advance cursor ds'
      end
  end.

(** The start times such a run hands out: each chunk at the end of the
    one before. *)
Fixpoint startTimes (cursor : Q) (ds : list Delivery) : list Q :=
  match ds with
  | [] => []
  | d :: ds' =>
      match audio (payload d) with
      | Some duration => cursor :: startTimes (cursor + duration)%Q ds'
      | None => startTimes cursor ds'
      end
  end.

(** All the start times handed to [source.start] in a list of effects. *)
Fixpoint scheduledStarts (es : list Effect) : list Q :=
  match es with
  | [] => []
  | SourceStart _ t :: es' => t :: scheduledStarts es'
  | _ :: es' => scheduledStarts es'
  end.

(* ------------------------------------------------------------------ *)
(** ** Sample runs

    The scenario of the specification: the user says "What is" and then
    "What is gravity?", the assistant answers with two chunks of 1.2 s
    and 0.8 s, then a barge-in arrives. *)

Definition env_at (t : Z) (rnd : string) : Fresh :=
  {| date := t; random := lit rnd |}.

Definition chunk (duration : Q) : LiveServerMessage :=
  {| audio := Some duration; interrupted := false;
     inputTranscription := None; outputTranscription := None |}.

Definition bargeIn : LiveServerMessage :=
  {| audio := None; interrupted := true;
     inputTranscription := None; outputTranscription := None |}.

Definition heard (t : string) : LiveServerMessage :=
  {| audio := None; interrupted := false;
     inputTranscription := Some (lit t); outputTranscription := None |}.

Definition arriving (clock : Q) (m : LiveServerMessage) : Delivery :=
  {| at_clock := clock; env_in := env_at 1000 "0.25";
     env_out := env_at 1000 "0.75"; payload := m |}.

(** A session that has been started, opened and connected: contexts 0
    (input) and 1 (output), session 7. *)
Definition connected : State :=
  startLiveSession_connected 7 (onopen (startLiveSession_begin initial)).

(** The state a list of deliveries leads to, the starting state if one
    of them throws. *)
Definition after (ds : list Delivery) (s : State) : State :=
  match deliverAll ds s with
  | Some (s', _) => s'
  | None => s
  end.

(** [connected] with one chunk of 1.2 s scheduled and still playing. *)
Definition playing : State := after [arriving 0 (chunk (6 # 5))] connected.

(** The two partial transcriptions of the user's question. *)
Definition whatIs : jsstring := lit "What is".

Definition whatIsGravity : jsstring := lit "What is gravity?".

(** The two chunks of the answer, then a third of half a second. *)
Definition answer1 : Delivery := arriving 0 (chunk (6 # 5)).

Definition answer2 : Delivery := arriving (1 # 2) (chunk (4 # 5)).

Definition answer3 : Delivery := arriving 2 (chunk (1 # 2)).

(** A state with text typed into the form and no session. *)
Definition typed (t : jsstring) : State := setInputText t initial.

(* ------------------------------------------------------------------ *)
(** ** Runs of transcriptions of both speakers *)

(** The entry [addMessage] creates when it does not rewrite the last one. *)
Definition newEntry (env : Fresh) (r : Role) (t : jsstring) : Message :=
  {| id := random env; role := r; text := t; timestamp := date env |}.

(** Calls of [addMessage], in order, each with its own speaker. *)
Fixpoint addTurns (evs : list (Fresh * Role * jsstring))
    (prev : list Message) : list Message :=
  match evs with
  | [] => prev
  | (env, r, t) :: evs' => addTurns evs' (addMessage env r t prev)
  end.

(** Every call is for another speaker than the one before it; [r0] is the
    speaker of the entry the run starts after, if there is one. *)
Fixpoint switching (r0 : option Role) (evs : list (Fresh * Role * jsstring))
    : Prop :=
  match evs with
  | [] => True
  | (_, r, _) :: evs' => r0 <> Some r /\ switching (Some r) evs'
  end.

(* ------------------------------------------------------------------ *)
(** ** The text input and the events of the component *)

(** [onChange] of the text input (line 326). *)
Definition onChange (value : jsstring) (s : State) : State :=
  setInputText value s.

(** What can be dispatched to the component: the phases of
    [startLiveSession], the session callbacks, the ['ended'] listener of a
    source, the session button when live, typing, the two halves of
    [handleSendText] and the "Flush Memory" button.  Any order is
    allowed, which covers every order the browser can produce. *)
Inductive Event : Type :=
| EvBegin
| EvConnected (session : Handle)
| EvCatch
| EvOpen
| EvMessage (d : Delivery)
| EvEnded (source : Handle)
| EvClose
| EvError
| EvStop
| EvChange (value : jsstring)
| EvSubmit (envUser : Fresh)
| EvSettle (envReply : Fresh) (c : Completion)
| EvFlush.

Definition step (e : Event) (s : State) : option (State * list Effect) :=
  match e with
  | EvBegin => Some (startLiveSession_begin s, [])
  | EvConnected session => Some (startLiveSession_connected session s, [])
  | EvCatch => Some (startLiveSession_catch s, [])
  | EvOpen => Some (onopen s, [])
  | EvMessage d => deliver d s
  | EvEnded source => Some (onended source s, [])
  | EvClose => Some (onclose s, [])
  | EvError => Some (onerror s, [])
  | EvStop => Some (stopLiveSession s)
  | EvChange value => Some (onChange value s, [])
  | EvSubmit envUser =>
      match handleSendText_submit envUser s with
      | Returned s' es => Some (s', es)
      | Awaiting s' es => Some (s', es)
      end
  | EvSettle envReply c =>
      match handleSendText_settle envReply c s with
      | Some s' => Some (s', [])
      | None => None
      end
  | EvFlush => Some (clearMessages s, [])
  end.

Fixpoint run (evs : list Event) (s : State) : option (State * list Effect) :=
  match evs with
  | [] => Some (s, [])
  | e :: evs' =>
      match step e s with
      | None => None
      | Some (s1, e1) =>
          match run evs' s1 with
          | None => None
          | Some (s2, e2) => Some (s2, e1 ++ e2)
          end
      end
  end.

(** The states the component can be in: those some sequence of events
    leads to from the state on mount. *)
Definition reachable (s : State) : Prop :=
  exists evs es, run evs initial = Some (s, es).

Definition isFlush (e : Event) : bool :=
  match e with EvFlush => true | _ => false end.

(** A message with the interruption flag. *)
Definition isBargeIn (e : Event) : bool :=
  match e with
  | EvMessage d => interrupted (payload d)
  | _ => false
  end.

(** The objects closed, the texts requested and sent in a list of
    effects. *)
Definition isClose (e : Effect) : bool :=
  match e with
  | SessionClose _ | AudioContextClose _ => true
  | _ => false
  end.

Definition closes (es : list Effect) : nat := length (filter isClose es).

Definition isSubmit (e : Event) : bool :=
  match e with EvSubmit _ => true | _ => false end.

Definition isStop (e : Event) : bool :=
  match e with EvStop => true | _ => false end.

(** What the handlers keep true of the playback state: no source is in
    the set twice, every source in it has been created, the status is
    [speaking] only while a source is scheduled, and a source is
    scheduled only once the output context exists. *)
Definition playbackInv (s : State) : Prop :=
  NoDup (sourcesRef s) /\
  (forall h, In h (sourcesRef s) -> h < allocated s) /\
  (mehuStatus s = speaking -> sourcesRef s <> []) /\
  (sourcesRef s <> [] -> outputAudioContextRef s <> None).

(** The transcript [after] keeps the history of the transcript [before]:
    it is not shorter, and its entries before the last position of
    [before] are those of [before]. *)
Definition keepsHistory (before after : list Message) : Prop :=
  length before <= length after /\
  forall k, k <= length before - 1 -> firstn k after = firstn k before.

(** An event that is not a barge-in and, when it is a message with a
    chunk, has a chunk whose duration is not negative. *)
Definition steady (e : Event) : Prop :=
  match e with
  | EvMessage d =>
      interrupted (payload d) = false /\
      match audio (payload d) with
      | Some duration => (0 <= duration)%Q
      | None => True
      end
  | _ => True
  end.

(** The ['ended'] events of several sources, one after the other. *)
Fixpoint endAll (hs : list Handle) (s : State) : State :=
  match hs with
  | [] => s
  | h :: hs' => endAll hs' (onended h s)
  end.

(** Chunks, none with the interruption flag, whenever they arrive. *)
Definition chunkOnly (d : Delivery) : Prop :=
  audio (payload d) <> None /\ interrupted (payload d) = false.

(** The start times [ts] of the chunks [ds], from [cursor] on: no chunk
    starts before the end of the one before it nor before the clock
    reading at its arrival, and each starts at one of the two. *)
Fixpoint wellSpaced (cursor : Q) (ds : list Delivery) (ts : list Q) : Prop :=
  match ds, ts with
  | [], [] => True
  | d :: ds', t :: ts' =>
      match audio (payload d) with
      | Some duration =>
          (cursor <= t)%Q /\ (at_clock d <= t)%Q /\
          (t = cursor \/ t = at_clock d) /\
          wellSpaced (t + duration)%Q ds' ts'
      | None => False
      end
  | _, _ => False
  end.

(* ------------------------------------------------------------------ *)
(** ** The theme (lines 28-33, 49-52, 72) *)

(** [===] on strings. *)
Fixpoint str_eqb (a b : jsstring) : bool :=
  match a, b with
  | [], [] => true
  | x :: a', y :: b' => N.eqb x y && str_eqb a' b'
  | _, _ => false
  end.

(** The members of the string enum [Theme] of types.ts. *)
Definition Theme_LIGHT : jsstring := lit "light".

Definition Theme_DARK : jsstring := lit "dark".

(** The initializer of the [theme] state.  [saved] is
    [localStorage.getItem('mehu-theme')] ([null] when the key is absent),
    [prefersDark] the answer of [matchMedia('(prefers-color-scheme: dark)')]. *)
Definition initTheme (saved : option jsstring) (prefersDark : bool) : jsstring :=
  let fallback := if prefersDark then Theme_DARK else Theme_LIGHT in
  match saved with
  | Some v =>
      if str_eqb v (lit "light") || str_eqb v (lit "dark") then v else fallback
  | None => fallback
  end.

Definition toggleTheme (prev : jsstring) : jsstring :=
  if str_eqb prev Theme_LIGHT then Theme_DARK else Theme_LIGHT.

(** What the theme effect writes: the value stored under ['mehu-theme']
    and whether the document root carries the class ['dark']. *)
Record Page : Type := {
  stored : option jsstring;
  darkClass : bool
}.

(** The effect on [theme] (lines 49-52). *)
Definition syncTheme (theme : jsstring) (p : Page) : Page :=
  {| stored := Some theme; darkClass := str_eqb theme Theme_DARK |}.

(** Mounting the component: the initializer, then the effect. *)
Definition mountTheme (prefersDark : bool) (p : Page) : jsstring * Page :=
  let theme := initTheme (stored p) prefersDark in
  (theme, syncTheme theme p).

(** A click on the theme button: [toggleTheme], then the effect. *)
Definition clickTheme (st : jsstring * Page) : jsstring * Page :=
  let theme := toggleTheme (fst st) in
  (theme, syncTheme theme (snd st)).

Fixpoint clicksTheme (n : nat) (st : jsstring * Page) : jsstring * Page :=
  match n with
  | O => st
  | S n' => clicksTheme n' (clickTheme st)
  end.

(* ------------------------------------------------------------------ *)
(** ** The metrics shown in the chart (lines 62-70) *)

Record ScienceMetric : Type := {
  name : jsstring;
  value : Q
}.

(** [newData.slice(-20)]: the last twenty elements, all of them when
    there are fewer. *)
Definition slice_m20 (l : list ScienceMetric) : list ScienceMetric :=
  skipn (length l - 20) l.

(** One reading of [Date.now().toString()] and of [Math.random()]. *)
Record Reading : Type := {
  stamp : jsstring;
  rnd : Q
}.

(** The point a tick adds.  The value is computed here over the exact
    rationals; the code computes it in double precision, where the
    product and the sum are each rounded. *)
Definition metricOf (r : Reading) : ScienceMetric :=
  {| name := stamp r; value := (40 + rnd r * 20)%Q |}.

(** The updater passed to [setScienceData] on every tick of the interval. *)
Definition scienceTick (r : Reading) (prev : list ScienceMetric)
    : list ScienceMetric :=
  slice_m20 (prev ++ [metricOf r]).

Fixpoint scienceTicks (rs : list Reading) (prev : list ScienceMetric)
    : list ScienceMetric :=
  match rs with
  | [] => prev
  | r :: rs' => scienceTicks rs' (scienceTick r prev)
  end.

(** [Math.random()] yields a number in [[0, 1)]. *)
Definition unitReading (r : Reading) : Prop := (0 <= rnd r)%Q /\ (rnd r < 1)%Q.

(** The band the plotted values lie in, both ends included (computed in
    double precision the sum can be rounded up to 60); the chart's axis
    spans 0 to 100 (line 270). *)
Definition inBand (m : ScienceMetric) : Prop :=
  (40 <= value m)%Q /\ (value m <= 60)%Q.

(* ------------------------------------------------------------------ *)
(** ** More sample data *)

(** The user asks, the assistant starts to answer, the user cuts in. *)
Definition sampleTurns : list (Fresh * Role * jsstring) :=
  [ (env_at 1000 "0.25", user, whatIs);
    (env_at 1200 "0.5", mehu, lit "Gravity is");
    (env_at 1300 "0.6", user, lit "ok") ].

(** A transcript with the user's whole question as its only entry. *)
Definition asked : list Message :=
  [ newEntry (env_at 1000 "0.25") user whatIsGravity ].

(** A message with the transcriptions of both directions. *)
Definition bothHeard : LiveServerMessage :=
  {| audio := None; interrupted := false;
     inputTranscription := Some whatIs;
     outputTranscription := Some (lit "Gravity is") |}.

(** A message with a chunk and the interruption flag. *)
Definition chunkAndBargeIn : LiveServerMessage :=
  {| audio := Some (1 # 2)%Q; interrupted := true;
     inputTranscription := None; outputTranscription := None |}.

(** Three chunks, the second and third arriving after the first has
    played out. *)
Definition lateRun : list Delivery :=
  [ answer1; arriving 3 (chunk (4 # 5)); arriving 3 (chunk (1 # 2)) ].

(** The events that lead to [playing]. *)
Definition toPlaying : list Event :=
  [ EvBegin; EvOpen; EvConnected 7; EvMessage answer1 ].

(** The outcome of a list of events, the starting state with no effect
    if a handler throws. *)
Definition outcome (evs : list Event) (s : State) : State * list Effect :=
  match run evs s with
  | Some r => r
  | None => (s, [])
  end.

(** "hi" submitted without a session, the request rejected. *)
Definition sentHi : State * list Effect :=
  match handleSendText (env_at 1000 "0.25") (env_at 1900 "0.5") Rejected
          (typed (lit "hi")) with
  | Some r => r
  | None => (initial, [])
  end.

(** "a" and then "b" submitted without a session before either request
    has settled; then both requests are rejected. *)
Definition overlapping : list Event :=
  [ EvChange (lit "a"); EvSubmit (env_at 1000 "0.25");
    EvChange (lit "b"); EvSubmit (env_at 1100 "0.35");
    EvSettle (env_at 1900 "0.5") Rejected;
    EvSettle (env_at 2000 "0.6") Rejected ].

(** A busy stretch of a session. *)
Definition busy : list Event :=
  [ EvMessage answer1; EvStop; EvMessage answer2; EvEnded 2;
    EvChange (lit "hi"); EvSubmit (env_at 1000 "0.25");
    EvSettle (env_at 1900 "0.5") Rejected; EvClose ].

(** A state whose transcript is [asked]. *)
Definition askedState : State := setMessages (fun _ => asked) connected.

Definition sampleReadings : list Reading :=
  [ {| stamp := lit "1700000000000"; rnd := (1 # 2)%Q |};
    {| stamp := lit "1700000000800"; rnd := 0%Q |};
    {| stamp := lit "1700000001600"; rnd := (99 # 100)%Q |} ].

(* ================================================================== *)
(** * Properties *)

(* ------------------------------------------------------------------ *)
(** ** Strings *)

Lemma startsWith_spec (t p : jsstring) :
  startsWith t p = true <-> exists b, t = p ++ b.
Proof.
  revert t. induction p as [|a p IH]; intros t; simpl.
  - split; [intros _; now exists t | intros _; now destruct t].
  - destruct t as [|b t].
    + split; [discriminate | intros [x Hx]; discriminate].
    + simpl. rewrite andb_true_iff, N.eqb_eq, IH. split.
      * intros [-> [x ->]]. now exists x.
      * intros [x Hx]. injection Hx as -> ->. split; [reflexivity | now exists x].
Qed.

Lemma includes_spec (t p : jsstring) :
  includes t p = true <-> substring p t.
Proof.
  unfold substring. induction t as [|c t IH]; cbn [includes].
  - rewrite orb_false_r, startsWith_spec. split.
    + intros [b Hb]. now exists [], b.
    + intros [a [b Hab]]. destruct a; [now exists b | discriminate].
  - rewrite orb_true_iff, IH, startsWith_spec. split.
    + intros [[b Hb] | [a [b Hab]]].
      * now exists [], b.
      * exists (c :: a), b. simpl. now rewrite Hab.
    + intros [[|c' a] [b Hab]].
      * left. now exists b.
      * right. simpl in Hab. injection Hab as _ ->. now exists a, b.
Qed.

Lemma includes_refl (t : jsstring) : includes t t = true.
Proof.
  apply includes_spec. exists [], []. simpl. now rewrite app_nil_r.
Qed.

Lemma trimStart_nil (s : jsstring) : trimStart s = [] <-> blank s = true.
Proof.
  induction s as [|c s IH]; simpl.
  - tauto.
  - destruct (isWhiteSpace c); simpl; [exact IH | split; discriminate].
Qed.

Lemma trimStart_head (s : jsstring) (c : N) (r : jsstring) :
  trimStart s = c :: r -> isWhiteSpace c = false.
Proof.
  induction s as [|d s IH]; simpl; [discriminate|].
  destruct (isWhiteSpace d) eqn:E; [exact IH|].
  intros H. injection H as <- _. exact E.
Qed.

Lemma blank_app (a b : jsstring) :
  blank (a ++ b) = (blank a && blank b)%bool.
Proof. unfold blank. apply forallb_app. Qed.

(** [trim] yields the empty string exactly on the blank strings. *)
Lemma trim_falsy (s : jsstring) :
  truthy (trim s) = false <-> blank s = true.
Proof.
  unfold trim, trimEnd. split.
  - intros H. apply trimStart_nil.
    destruct (trimStart s) as [|c r] eqn:E; [reflexivity|].
    exfalso.
    assert (Hc : isWhiteSpace c = false) by (eapply trimStart_head; eauto).
    assert (Hn : trimStart (rev (c :: r)) = []).
    { destruct (trimStart (rev (c :: r))) as [|x y] eqn:E2; [reflexivity|].
      assert (Hr : rev (x :: y) <> []).
      { simpl. intros H0. apply app_eq_nil in H0. destruct H0; discriminate. }
      destruct (rev (x :: y)); [now elim Hr | discriminate]. }
    apply trimStart_nil in Hn. simpl in Hn.
    rewrite blank_app in Hn. simpl in Hn. rewrite Hc in Hn.
    rewrite andb_false_r in Hn. discriminate.
  - intros H. apply trimStart_nil in H. now rewrite H.
Qed.

(* ------------------------------------------------------------------ *)
(** ** The transcript *)

Lemma lastOf_snoc (front : list Message) (m : Message) :
  lastOf (front ++ [m]) = Some m.
Proof.
  unfold lastOf. destruct (front ++ [m]) eqn:E.
  - destruct front; discriminate.
  - rewrite <- E, length_app. simpl.
    replace (length front + 1 - 1) with (length front) by lia.
    rewrite nth_error_app2 by lia. now rewrite Nat.sub_diag.
Qed.

Lemma slice_0_m1_snoc (front : list Message) (m : Message) :
  slice_0_m1 (front ++ [m]) = front.
Proof.
  unfold slice_0_m1. rewrite length_app. simpl.
  replace (length front + 1 - 1) with (length front) by lia.
  rewrite firstn_app, Nat.sub_diag, firstn_all. simpl. apply app_nil_r.
Qed.

Lemma lastOf_Some (prev : list Message) (m : Message) :
  lastOf prev = Some m -> prev = slice_0_m1 prev ++ [m].
Proof.
  destruct prev as [|x l] using rev_ind; [discriminate|].
  rewrite lastOf_snoc, slice_0_m1_snoc. now intros [= ->].
Qed.

Lemma coalesces_snoc (r : Role) (t : jsstring) (front : list Message)
    (m : Message) :
  coalesces r t (front ++ [m]) = (role_eqb (role m) r && includes t (text m))%bool.
Proof. unfold coalesces. now rewrite lastOf_snoc. Qed.

Lemma role_eqb_refl (r : Role) : role_eqb r r = true.
Proof. now destruct r. Qed.

Lemma role_eqb_eq (a b : Role) : role_eqb a b = true <-> a = b.
Proof. destruct a, b; simpl; split; congruence. Qed.

(** The two shapes of the result of [addMessage], by its guard. *)
Lemma addMessage_cases (env : Fresh) (r : Role) (t : jsstring)
    (prev : list Message) :
  if coalesces r t prev
  then exists lastMsg,
         prev = slice_0_m1 prev ++ [lastMsg] /\
         role lastMsg = r /\
         substring (text lastMsg) t /\
         addMessage env r t prev =
           slice_0_m1 prev ++
           [ {| id := id lastMsg; role := role lastMsg; text := t;
                timestamp := date env |} ]
  else addMessage env r t prev =
         prev ++ [ {| id := random env; role := r; text := t;
                      timestamp := date env |} ].
Proof.
  unfold coalesces, addMessage.
  destruct (lastOf prev) as [m|] eqn:E; [|reflexivity].
  destruct (role_eqb (role m) r && includes t (text m))%bool eqn:G;
    [|reflexivity].
  apply andb_true_iff in G. destruct G as [Gr Gi].
  exists m. repeat split.
  - now apply lastOf_Some.
  - now apply role_eqb_eq.
  - now apply includes_spec.
Qed.

(** Appending to a transcript whose last entry is of the same speaker
    and whose text the new text contains rewrites that entry. *)
Lemma addMessage_grow (env : Fresh) (r : Role) (t : jsstring)
    (front : list Message) (m : Message) :
  role m = r -> substring (text m) t ->
  addMessage env r t (front ++ [m]) =
    front ++ [ {| id := id m; role := r; text := t; timestamp := date env |} ].
Proof.
  intros Hr Hs. unfold addMessage.
  rewrite lastOf_snoc, slice_0_m1_snoc, Hr, role_eqb_refl.
  apply includes_spec in Hs. now rewrite Hs.
Qed.

(** A growing run of one speaker keeps rewriting the same last entry. *)
Lemma addMessages_grow (r : Role) (evs : list (Fresh * jsstring)) :
  forall (front : list Message) (m : Message),
    role m = r -> growing (text m) evs ->
    exists m',
      addMessages r evs (front ++ [m]) = front ++ [m'] /\
      id m' = id m /\ role m' = r /\ text m' = lastText (text m) evs.
Proof.
  induction evs as [|[env t] evs IH]; intros front m Hr Hg.
  - exists m. now repeat split.
  - destruct Hg as [Hs Hg]. cbn [addMessages lastText].
    rewrite (addMessage_grow env r t front m Hr Hs).
    destruct (IH front {| id := id m; role := r; text := t;
                          timestamp := date env |} eq_refl Hg)
      as [m' [H1 [H2 [H3 H4]]]].
    exists m'. now repeat split.
Qed.

(** C9.  [addMessage] leaves every entry but possibly the last one as it
    was, in the same order: the entries before the last position of the
    old transcript are the same list before and after.  When the guard
    fails the old transcript is kept whole and one entry is added (length
    plus one); when the guard holds only the last entry is rewritten, its
    [id] and [role] kept, and the length is the same. *)
Theorem addMessage_frame (env : Fresh) (r : Role) (t : jsstring)
    (prev : list Message) :
  firstn (length prev - 1) (addMessage env r t prev)
    = firstn (length prev - 1) prev
  /\
  if coalesces r t prev
  then length (addMessage env r t prev) = length prev /\
       exists lastMsg,
         lastOf prev = Some lastMsg /\
         lastOf (addMessage env r t prev) =
           Some {| id := id lastMsg; role := role lastMsg; text := t;
                   timestamp := date env |}
  else length (addMessage env r t prev) = S (length prev) /\
       firstn (length prev) (addMessage env r t prev) = prev /\
       lastOf (addMessage env r t prev) =
         Some {| id := random env; role := r; text := t;
                 timestamp := date env |}.
Proof.
  pose proof (addMessage_cases env r t prev) as H.
  destruct (coalesces r t prev).
  - destruct H as [m [Hp [_ [_ Ha]]]]. rewrite Ha.
    assert (Hl : length prev = S (length (slice_0_m1 prev))).
    { rewrite Hp at 1. rewrite length_app. simpl. lia. }
    split; [|split].
    + change (firstn (length prev - 1) prev) with (slice_0_m1 prev).
      rewrite Hl. simpl. rewrite Nat.sub_0_r, firstn_app, Nat.sub_diag, firstn_all.
      simpl. apply app_nil_r.
    + rewrite length_app. simpl. lia.
    + exists m. split.
      * rewrite Hp. apply lastOf_snoc.
      * apply lastOf_snoc.
  - rewrite H. split; [|split; [|split]].
    + rewrite firstn_app.
      replace (length prev - 1 - length prev) with 0 by lia.
      simpl. apply app_nil_r.
    + rewrite length_app. simpl. lia.
    + rewrite firstn_app, Nat.sub_diag, firstn_all. simpl. apply app_nil_r.
    + apply lastOf_snoc.
Qed.

(** C1.  A non-empty run of partial transcriptions of one speaker, each
    text containing the one before it, applied to any transcript: the
    whole run ends up in one entry.  The transcript after the run is the
    transcript after the first append with only its last entry changed
    (same length), that entry is the speaker's and its text is the last
    text received. *)
Theorem growing_run_one_entry (r : Role) (env1 : Fresh) (t1 : jsstring)
    (evs : list (Fresh * jsstring)) (prev : list Message) :
  growing t1 evs ->
  exists front m1 m,
    addMessage env1 r t1 prev = front ++ [m1] /\
    front = (if coalesces r t1 prev then slice_0_m1 prev else prev) /\
    addMessages r ((env1, t1) :: evs) prev = front ++ [m] /\
    id m = id m1 /\ role m = r /\
    text m = lastText t1 evs.
Proof.
  intros Hg. cbn [addMessages].
  pose proof (addMessage_cases env1 r t1 prev) as H.
  destruct (coalesces r t1 prev).
  - destruct H as [l [_ [Hr [_ Ha]]]]. rewrite Ha.
    destruct (addMessages_grow r evs (slice_0_m1 prev)
                {| id := id l; role := role l; text := t1;
                   timestamp := date env1 |} Hr Hg)
      as [m [H1 [H2 [H3 H4]]]].
    eexists _, _, m. rewrite H1. now repeat split.
  - rewrite H.
    destruct (addMessages_grow r evs prev
                {| id := random env1; role := r; text := t1;
                   timestamp := date env1 |} eq_refl Hg)
      as [m [H1 [H2 [H3 H4]]]].
    eexists _, _, m. rewrite H1. now repeat split.
Qed.

(** After [addMessage] the last entry is the speaker's and carries the
    text just given. *)
Lemma addMessage_last (env : Fresh) (r : Role) (t : jsstring)
    (prev : list Message) :
  exists front m,
    addMessage env r t prev = front ++ [m] /\ role m = r /\ text m = t.
Proof.
  pose proof (addMessage_cases env r t prev) as H.
  destruct (coalesces r t prev).
  - destruct H as [l [_ [Hr [_ Ha]]]]. rewrite Ha.
    eexists _, _. split; [reflexivity|]. now split.
  - rewrite H. eexists _, _. split; [reflexivity|]. now split.
Qed.

(** An entry of the other speaker is never rewritten. *)
Lemma addMessage_other_speaker (env : Fresh) (r : Role) (t : jsstring)
    (front : list Message) (m : Message) :
  role m <> r ->
  addMessage env r t (front ++ [m]) =
    (front ++ [m]) ++
    [ {| id := random env; role := r; text := t; timestamp := date env |} ].
Proof.
  intros Hr. unfold addMessage. rewrite lastOf_snoc.
  destruct (role_eqb (role m) r) eqn:E; [|reflexivity].
  apply role_eqb_eq in E. contradiction.
Qed.

(* ------------------------------------------------------------------ *)
(** ** The text form *)

Lemma replyText_truthy (rt : option jsstring) : truthy (replyText rt) = true.
Proof.
  unfold replyText. destruct rt as [[|c t]|]; reflexivity.
Qed.

Lemma submit_blank (envUser : Fresh) (s : State) :
  blank (inputText s) = true ->
  handleSendText_submit envUser s = Returned s [PreventDefault].
Proof.
  intros H. apply trim_falsy in H. unfold handleSendText_submit.
  now rewrite H.
Qed.

Lemma submit_one_shot (envUser : Fresh) (s : State) :
  blank (inputText s) = false -> liveSession s = None ->
  handleSendText_submit envUser s =
    Awaiting (setMessages (addMessage envUser user (inputText s))
                (setInputText [] s))
             [PreventDefault; GenerateContent (inputText s)].
Proof.
  intros Hb Hl. unfold handleSendText_submit. rewrite Hl.
  destruct (truthy (trim (inputText s))) eqn:E; [reflexivity|].
  apply trim_falsy in E. congruence.
Qed.

(** The one-shot path of [handleSendText], whatever way the request
    settles. *)
Lemma handleSendText_one_shot (envUser envReply : Fresh) (c : Completion)
    (s : State) :
  blank (inputText s) = false -> liveSession s = None ->
  handleSendText envUser envReply c s =
    Some (setMessages
            (fun _ =>
               addMessage envUser user (inputText s) (messages s) ++
               [ {| id := random envReply; role := mehu;
                    text := match c with
                            | Resolved rt => replyText rt
                            | Rejected => fallbackText
                            end;
                    timestamp := date envReply |} ])
            (setInputText [] s),
          [PreventDefault; GenerateContent (inputText s)]).
Proof.
  intros Hb Hl. unfold handleSendText.
  rewrite (submit_one_shot envUser s Hb Hl).
  destruct (addMessage_last envUser user (inputText s) (messages s))
    as [front [m [Hm [Hr _]]]].
  assert (Hne : role m <> mehu) by (rewrite Hr; discriminate).
  unfold handleSendText_settle, setMessages; destruct c; simpl;
    rewrite Hm, (addMessage_other_speaker _ _ _ _ _ Hne); reflexivity.
Qed.

(** C8.  Submitting the form while the input is empty or all white space
    changes nothing: the state, and so the transcript, is the one before,
    no completion request is issued and nothing is sent over a session
    (the handler only calls [preventDefault] on the event). *)
Theorem blank_submit_is_noop (envUser envReply : Fresh) (c : Completion)
    (s : State) :
  blank (inputText s) = true ->
  exists s' es,
    handleSendText envUser envReply c s = Some (s', es) /\
    s' = s /\ messages s' = messages s /\
    es = [PreventDefault] /\ requests es = 0 /\ sends es = 0.
Proof.
  intros H. exists s, [PreventDefault].
  unfold handleSendText. rewrite (submit_blank envUser s H).
  now repeat split.
Qed.

Lemma replyText_shown (rt : option jsstring) :
  replyText rt =
    match rt with
    | Some (x :: t) => x :: t
    | _ => lit "..."
    end.
Proof. destruct rt as [[|x t]|]; reflexivity. Qed.

(** C4.  With a non-blank input and no live session, [handleSendText]
    issues exactly one completion request, sends nothing over a session
    and waits.  When the request has settled, in whatever state the
    component is by then, the handler returns normally and calls
    [addMessage] for the assistant exactly once: with the reply as
    received when the request resolved with a non-empty text, with the
    three dots when it resolved without one, with the fallback text when
    it was rejected.  That call adds exactly one entry unless the last
    entry of the transcript at that moment is the assistant's and its
    text is contained in the new text; then that entry is rewritten and
    none is added.  When nothing is dispatched while the request is
    pending, the last entry is the user's and exactly one entry is
    added. *)
Theorem sendText_request_then_settle (envUser envReply : Fresh)
    (c : Completion) (s later : State) :
  blank (inputText s) = false -> liveSession s = None ->
  let shown :=
    match c with
    | Resolved (Some (x :: t)) => x :: t
    | Resolved _ => lit "..."
    | Rejected =>
        lit "I had a little brain freeze. Can you say that again, bestie?"
    end in
  (exists s1,
     handleSendText_submit envUser s =
       Awaiting s1 [PreventDefault; GenerateContent (inputText s)] /\
     messages s1 = addMessage envUser user (inputText s) (messages s)) /\
  requests [PreventDefault; GenerateContent (inputText s)] = 1 /\
  sends [PreventDefault; GenerateContent (inputText s)] = 0 /\
  (exists s',
     handleSendText_settle envReply c later = Some s' /\
     messages s' = addMessage envReply mehu shown (messages later) /\
     if coalesces mehu shown (messages later)
     then length (messages s') = length (messages later) /\
          exists lastMsg,
            lastOf (messages later) = Some lastMsg /\
            role lastMsg = mehu /\
            lastOf (messages s') =
              Some {| id := id lastMsg; role := mehu; text := shown;
                      timestamp := date envReply |}
     else messages s' = messages later ++ [newEntry envReply mehu shown]) /\
  (exists s',
     handleSendText envUser envReply c s =
       Some (s', [PreventDefault; GenerateContent (inputText s)]) /\
     messages s' =
       addMessage envUser user (inputText s) (messages s) ++
       [newEntry envReply mehu shown]).
Proof.
  intros Hb Hl shown.
  assert (Hshown : shown = match c with
                           | Resolved rt => replyText rt
                           | Rejected => fallbackText
                           end).
  { subst shown. destruct c as [rt|]; [|reflexivity].
    now rewrite replyText_shown. }
  clearbody shown. subst shown.
  split; [|split; [reflexivity | split; [reflexivity | split]]].
  - eexists. split; [apply (submit_one_shot envUser s Hb Hl) | reflexivity].
  - set (shown := match c with
                  | Resolved rt => replyText rt
                  | Rejected => fallbackText
                  end).
    exists (setMessages (addMessage envReply mehu shown) later).
    split; [unfold handleSendText_settle; now destruct c|].
    split; [reflexivity|]. cbn [messages setMessages].
    pose proof (addMessage_cases envReply mehu shown (messages later)) as C.
    destruct (coalesces mehu shown (messages later)).
    + destruct C as [l [Hp [Hr [_ Ha]]]]. rewrite Ha. split.
      * rewrite Hp at 2. rewrite !length_app. reflexivity.
      * exists l. split; [rewrite Hp; apply lastOf_snoc|].
        split; [exact Hr|]. rewrite Hr. apply lastOf_snoc.
    + exact C.
  - eexists. split.
    + apply (handleSendText_one_shot envUser envReply c s Hb Hl).
    + reflexivity.
Qed.

(** C10.  When the request resolves, the entry added for the assistant
    never has an empty text; when the response text is absent or empty
    the entry's text is the three dots. *)
Theorem resolved_reply_not_empty (envUser envReply : Fresh)
    (rt : option jsstring) (s : State) :
  blank (inputText s) = false -> liveSession s = None ->
  exists s' es m,
    handleSendText envUser envReply (Resolved rt) s = Some (s', es) /\
    messages s' =
      addMessage envUser user (inputText s) (messages s) ++ [m] /\
    role m = mehu /\
    text m <> [] /\
    (rt = None \/ rt = Some [] -> text m = lit "...").
Proof.
  intros Hb Hl.
  rewrite (handleSendText_one_shot envUser envReply (Resolved rt) s Hb Hl).
  eexists _, _, _. split; [reflexivity|]. cbn [messages setMessages].
  repeat split.
  - cbn [text]. pose proof (replyText_truthy rt) as H.
    intros E. rewrite E in H. discriminate.
  - intros [-> | ->]; reflexivity.
Qed.

(* ------------------------------------------------------------------ *)
(** ** Stopping and remote close *)

Lemma stopLiveSession_state (s : State) :
  fst (stopLiveSession s) =
    setMehuStatus idle
      (setIsLive false (set_audioContextRef None (set_sessionRef None s))).
Proof.
  unfold stopLiveSession.
  destruct s as [l ms it st [a|] o [ss|] n src al]; reflexivity.
Qed.

(** [stopLiveSession] neither touches the set of scheduled sources, the
    output context or the cursor, nor stops a source. *)
Lemma stopLiveSession_playback (s : State) :
  sourcesRef (fst (stopLiveSession s)) = sourcesRef s /\
  outputAudioContextRef (fst (stopLiveSession s)) = outputAudioContextRef s /\
  nextStartTimeRef (fst (stopLiveSession s)) = nextStartTimeRef s /\
  stoppedSources (snd (stopLiveSession s)) = [].
Proof.
  unfold stopLiveSession.
  destruct (sessionRef s), (audioContextRef s) eqn:E; cbn; rewrite ?E; cbn;
    now repeat split.
Qed.

(** [onclose] and [onerror] clear [isLive] and nothing else. *)
Lemma onclose_fields (s : State) :
  isLive (onclose s) = false /\ mehuStatus (onclose s) = mehuStatus s /\
  sessionRef (onclose s) = sessionRef s.
Proof. now repeat split. Qed.

Lemma onerror_fields (s : State) :
  isLive (onerror s) = false /\ mehuStatus (onerror s) = mehuStatus s /\
  sessionRef (onerror s) = sessionRef s.
Proof. now repeat split. Qed.

(** C5.  From any state [stopLiveSession] returns, leaves the status at
    [idle], the session reference empty and the liveness flag down; run
    again on the state it produced it changes nothing and calls
    nothing. *)
Theorem stopLiveSession_idempotent (s : State) :
  mehuStatus (fst (stopLiveSession s)) = idle /\
  isLive (fst (stopLiveSession s)) = false /\
  sessionRef (fst (stopLiveSession s)) = None /\
  liveSession (fst (stopLiveSession s)) = None /\
  stopLiveSession (fst (stopLiveSession s)) = (fst (stopLiveSession s), []).
Proof.
  rewrite stopLiveSession_state.
  destruct s as [l ms it st a o ss n src al]. now repeat split.
Qed.

(** C7.  In an open session ([onopen] has set the status to
    [listening]) a close or an error from the remote side clears
    [isLive] but leaves the status at [listening]: the status is not
    brought back to [idle]. *)
Theorem remote_close_keeps_status :
  mehuStatus connected = listening /\ isLive connected = true /\
  isLive (onclose connected) = false /\
  mehuStatus (onclose connected) = listening /\
  isLive (onerror connected) = false /\
  mehuStatus (onerror connected) = listening.
Proof. now repeat split. Qed.

(** C6.  With a chunk scheduled and playing, [stopLiveSession] closes the
    session and the input context only: the source stays in the set of
    scheduled sources, no source is stopped and the output context stays
    open. *)
Theorem stop_keeps_scheduled_sources :
  sourcesRef playing = [2] /\
  stopLiveSession playing =
    (setMehuStatus idle
       (setIsLive false
          (set_audioContextRef None (set_sessionRef None playing))),
     [SessionClose 7; AudioContextClose 0]) /\
  sourcesRef (fst (stopLiveSession playing)) = [2] /\
  stoppedSources (snd (stopLiveSession playing)) = [] /\
  outputAudioContextRef (fst (stopLiveSession playing)) = Some 1.
Proof. now repeat split. Qed.

(* ------------------------------------------------------------------ *)
(** ** Playback scheduling *)

Lemma transcribe_playback (envIn envOut : Fresh) (m : LiveServerMessage)
    (s : State) :
  nextStartTimeRef (transcribe envIn envOut m s) = nextStartTimeRef s /\
  sourcesRef (transcribe envIn envOut m s) = sourcesRef s /\
  mehuStatus (transcribe envIn envOut m s) = mehuStatus s /\
  outputAudioContextRef (transcribe envIn envOut m s)
    = outputAudioContextRef s /\
  allocated (transcribe envIn envOut m s) = allocated s.
Proof.
  unfold transcribe.
  destruct (inputTranscription m), (outputTranscription m); now repeat split.
Qed.

(** A chunk handled with the output context in place. *)
Lemma playChunk_scheduled (c : Q) (m : LiveServerMessage) (s : State)
    (ctx : Handle) (dur : Q) :
  outputAudioContextRef s = Some ctx -> audio m = Some dur ->
  exists s1,
    playChunk c m s =
      Some (s1, [SourceStart (allocated s) (Qmax (nextStartTimeRef s) c)]) /\
    nextStartTimeRef s1 = (Qmax (nextStartTimeRef s) c + dur)%Q /\
    sourcesRef s1 = set_add (allocated s) (sourcesRef s) /\
    mehuStatus s1 = speaking /\
    outputAudioContextRef s1 = Some ctx /\
    allocated s1 = S (allocated s).
Proof.
  intros Hc Ha. unfold playChunk. rewrite Ha. cbn. rewrite Hc.
  eexists. split; [reflexivity|]. cbn. now repeat split.
Qed.

(** A message with a chunk and no interruption flag. *)
Lemma onmessage_chunk (c : Q) (envIn envOut : Fresh) (m : LiveServerMessage)
    (s : State) (ctx : Handle) (dur : Q) :
  outputAudioContextRef s = Some ctx -> audio m = Some dur ->
  interrupted m = false ->
  exists s',
    onmessage c envIn envOut m s =
      Some (s', [SourceStart (allocated s) (Qmax (nextStartTimeRef s) c)]) /\
    nextStartTimeRef s' = (Qmax (nextStartTimeRef s) c + dur)%Q /\
    sourcesRef s' = set_add (allocated s) (sourcesRef s) /\
    mehuStatus s' = speaking /\
    outputAudioContextRef s' = Some ctx.
Proof.
  intros Hc Ha Hi.
  destruct (playChunk_scheduled c m s ctx dur Hc Ha)
    as [s1 [Hp [H1 [H2 [H3 [H4 _]]]]]].
  unfold onmessage, interrupt. rewrite Hp, Hi.
  destruct (transcribe_playback envIn envOut m s1) as [T1 [T2 [T3 [T4 _]]]].
  eexists. split; [reflexivity|].
  rewrite T1, T2, T3, T4. now repeat split.
Qed.

(** A message with the interruption flag. *)
Lemma onmessage_interrupted (c : Q) (envIn envOut : Fresh)
    (m : LiveServerMessage) (s : State) (ctx : Handle) :
  outputAudioContextRef s = Some ctx -> interrupted m = true ->
  exists s' es,
    onmessage c envIn envOut m s = Some (s', es) /\
    nextStartTimeRef s' = 0%Q /\ sourcesRef s' = [] /\
    mehuStatus s' = idle /\ outputAudioContextRef s' = Some ctx /\
    stoppedSources es =
      match audio m with
      | Some _ => set_add (allocated s) (sourcesRef s)
      | None => sourcesRef s
      end.
Proof.
  intros Hc Hi.
  assert (Hstop : forall l, stoppedSources (map SourceStop l) = l).
  { induction l as [|x l IH]; simpl; [reflexivity | now rewrite IH]. }
  unfold onmessage, interrupt.
  destruct (audio m) as [dur|] eqn:Ha.
  - destruct (playChunk_scheduled c m s ctx dur Hc Ha)
      as [s1 [Hp [H1 [H2 [H3 [H4 _]]]]]].
    rewrite Hp, Hi. eexists _, _. split; [reflexivity|].
    destruct (transcribe_playback envIn envOut m
                (setMehuStatus idle
                   (set_nextStartTimeRef 0%Q (set_sourcesRef [] s1))))
      as [T1 [T2 [T3 [T4 _]]]].
    rewrite T1, T2, T3, T4. cbn. rewrite Hstop. now repeat split.
  - unfold playChunk. rewrite Ha, Hi. eexists _, _. split; [reflexivity|].
    destruct (transcribe_playback envIn envOut m
                (setMehuStatus idle
                   (set_nextStartTimeRef 0%Q (set_sourcesRef [] s))))
      as [T1 [T2 [T3 [T4 _]]]].
    rewrite T1, T2, T3, T4. cbn. rewrite Hstop. now repeat split.
Qed.

(** Messages without audio leave a cursor at zero where it is and start
    no source. *)
Lemma quiet_keeps_zero (ds : list Delivery) :
  forall s : State,
    Forall (fun q => audio (payload q) = None) ds ->
    nextStartTimeRef s = 0%Q ->
    exists s' es,
      deliverAll ds s = Some (s', es) /\
      nextStartTimeRef s' = 0%Q /\
      outputAudioContextRef s' = outputAudioContextRef s /\
      scheduledStart es = None.
Proof.
  induction ds as [|d ds IH]; intros s Hq Hz.
  - exists s, []. now repeat split.
  - inversion Hq as [|x l Hd Hds]; subst.
    cbn [deliverAll]. unfold deliver, onmessage, playChunk, interrupt.
    rewrite Hd.
    destruct (transcribe_playback (env_in d) (env_out d) (payload d) s)
      as [T1 [_ [_ [T4 _]]]].
    destruct (transcribe_playback (env_in d) (env_out d) (payload d)
                (setMehuStatus idle
                   (set_nextStartTimeRef 0%Q (set_sourcesRef [] s))))
      as [U1 [_ [_ [U4 _]]]].
    assert (Hnone : forall l, scheduledStart (map SourceStop l) = None).
    { induction l as [|x l IHl]; simpl; [reflexivity | exact IHl]. }
    assert (Happ : forall a b, scheduledStart a = None ->
                               scheduledStart (a ++ b) = scheduledStart b).
    { induction a as [|e a IHa]; intros b Ha; [reflexivity|].
      destruct e; simpl in *; try (now apply IHa); discriminate. }
    destruct (interrupted (payload d)).
    + destruct (IH _ Hds U1) as [s' [es [H1 [H2 [H3 H4]]]]].
      rewrite H1. eexists _, _. split; [reflexivity|].
      split; [exact H2|]. split; [now rewrite H3, U4|].
      cbn [app]. rewrite Happ by apply Hnone. exact H4.
    + assert (Hz' : nextStartTimeRef
                      (transcribe (env_in d) (env_out d) (payload d) s) = 0%Q)
        by now rewrite T1.
      destruct (IH _ Hds Hz') as [s' [es [H1 [H2 [H3 H4]]]]].
      rewrite H1. eexists _, _. split; [reflexivity|].
      split; [exact H2|]. split; [now rewrite H3, T4|]. exact H4.
Qed.

(** [Math.max] returns its first argument when the second is not
    greater. *)
Lemma Qmax_first (x y : Q) : (y <= x)%Q -> Qmax x y = x.
Proof.
  intros H. unfold Qmax, GenericMinMax.gmax.
  destruct (Qcompare x y) eqn:E; try reflexivity.
  apply Qlt_alt in E. exfalso. apply (Qlt_not_le _ _ E H).
Qed.

(** X21.  Any number of chunks arriving on time are played back to back,
    in arrival order: the start times are the running sums of the
    durations from the cursor on, and the cursor ends at their total. *)
Lemma run_back_to_back (ds : list Delivery) :
  forall (s : State) (ctx : Handle),
    outputAudioContextRef s = Some ctx ->
    onTime (nextStartTimeRef s) ds ->
    exists s' es,
      deliverAll ds s = Some (s', es) /\
      scheduledStarts es = startTimes (nextStartTimeRef s) ds /\
      nextStartTimeRef s' = advance (nextStartTimeRef s) ds /\
      outputAudioContextRef s' = Some ctx.
Proof.
  induction ds as [|d ds IH]; intros s ctx Hc Ht.
  - exists s, []. now repeat split.
  - cbn [onTime] in Ht. cbn [deliverAll startTimes advance].
    destruct (audio (payload d)) as [dur|] eqn:Ha; [|contradiction].
    destruct Ht as [Hi [Hle Ht]].
    destruct (onmessage_chunk (at_clock d) (env_in d) (env_out d) (payload d)
                s ctx dur Hc Ha Hi) as [s1 [E1 [N1 [_ [_ O1]]]]].
    rewrite (Qmax_first _ _ Hle) in E1, N1.
    rewrite <- N1 in Ht.
    destruct (IH s1 ctx O1 Ht) as [s' [es [E [S' [N' O']]]]].
    unfold deliver. rewrite E1, E. eexists _, _. split; [reflexivity|].
    cbn [app scheduledStarts]. rewrite S', N', N1. now repeat split.
Qed.

(** C2.  Three chunks of durations [d1], [d2], [d3], none with the
    interruption flag, handled from a cursor at zero, each arriving when
    the playback clock is not past the cursor: every chunk starts where
    the one before ends, and the cursor ends at [d1 + d2 + d3]. *)
Theorem chunks_back_to_back (s : State) (ctx : Handle)
    (a1 a2 a3 : Delivery) (d1 d2 d3 : Q) :
  outputAudioContextRef s = Some ctx ->
  (nextStartTimeRef s == 0)%Q ->
  audio (payload a1) = Some d1 -> interrupted (payload a1) = false ->
  audio (payload a2) = Some d2 -> interrupted (payload a2) = false ->
  audio (payload a3) = Some d3 -> interrupted (payload a3) = false ->
  (at_clock a1 <= 0)%Q -> (at_clock a2 <= d1)%Q ->
  (at_clock a3 <= d1 + d2)%Q ->
  exists s1 e1 s2 e2 s3 e3 t1 t2 t3,
    deliver a1 s = Some (s1, e1) /\ scheduledStart e1 = Some t1 /\
    deliver a2 s1 = Some (s2, e2) /\ scheduledStart e2 = Some t2 /\
    deliver a3 s2 = Some (s3, e3) /\ scheduledStart e3 = Some t3 /\
    (t2 == t1 + d1)%Q /\ (t3 == t2 + d2)%Q /\
    (nextStartTimeRef s3 == d1 + d2 + d3)%Q.
Proof.
  intros Hc H0 A1 I1 A2 I2 A3 I3 C1 C2 C3. unfold deliver.
  destruct (onmessage_chunk (at_clock a1) (env_in a1) (env_out a1)
              (payload a1) s ctx d1 Hc A1 I1)
    as [s1 [E1 [N1 [_ [_ O1]]]]].
  destruct (onmessage_chunk (at_clock a2) (env_in a2) (env_out a2)
              (payload a2) s1 ctx d2 O1 A2 I2)
    as [s2 [E2 [N2 [_ [_ O2]]]]].
  destruct (onmessage_chunk (at_clock a3) (env_in a3) (env_out a3)
              (payload a3) s2 ctx d3 O2 A3 I3)
    as [s3 [E3 [N3 [_ [_ O3]]]]].
  assert (M1 : (Qmax (nextStartTimeRef s) (at_clock a1) == 0)%Q).
  { rewrite Q.max_l; [exact H0 | rewrite H0; exact C1]. }
  assert (M2 : (Qmax (nextStartTimeRef s1) (at_clock a2)
                == Qmax (nextStartTimeRef s) (at_clock a1) + d1)%Q).
  { rewrite N1. apply Q.max_l. rewrite M1. lra. }
  assert (M3 : (Qmax (nextStartTimeRef s2) (at_clock a3)
                == Qmax (nextStartTimeRef s1) (at_clock a2) + d2)%Q).
  { rewrite N2. apply Q.max_l. rewrite M2, M1. lra. }
  eexists s1, _, s2, _, s3, _, _, _, _.
  split; [exact E1|]. split; [reflexivity|].
  split; [exact E2|]. split; [reflexivity|].
  split; [exact E3|]. split; [reflexivity|].
  split; [exact M2|]. split; [exact M3|].
  rewrite N3, M3, M2, M1. lra.
Qed.

(** C3.  A message with the interruption flag sets the cursor to zero,
    empties the set of scheduled sources after stopping each of them and
    sets the status to [idle].  The next chunk that arrives, possibly
    after messages that carry no audio, is started at the reading of the
    playback clock (a clock reading is not negative), whatever the cursor
    was before the interruption. *)
Theorem interruption_resets_schedule (s : State) (ctx : Handle)
    (i : Delivery) (quiet : list Delivery) (next : Delivery) (dur : Q) :
  outputAudioContextRef s = Some ctx ->
  interrupted (payload i) = true ->
  Forall (fun q => audio (payload q) = None) quiet ->
  audio (payload next) = Some dur ->
  (0 <= at_clock next)%Q ->
  exists s1 e1 s2 e2 s3 e3 t,
    deliver i s = Some (s1, e1) /\
    nextStartTimeRef s1 = 0%Q /\ sourcesRef s1 = [] /\ mehuStatus s1 = idle /\
    incl (sourcesRef s) (stoppedSources e1) /\
    deliverAll quiet s1 = Some (s2, e2) /\ scheduledStart e2 = None /\
    deliver next s2 = Some (s3, e3) /\ scheduledStart e3 = Some t /\
    (t == at_clock next)%Q.
Proof.
  intros Hc Hi Hq Ha Hpos. unfold deliver.
  destruct (onmessage_interrupted (at_clock i) (env_in i) (env_out i)
              (payload i) s ctx Hc Hi)
    as [s1 [e1 [E1 [N1 [S1 [M1 [O1 St]]]]]]].
  destruct (quiet_keeps_zero quiet s1 Hq N1) as [s2 [e2 [E2 [N2 [O2 Q2]]]]].
  rewrite O1 in O2.
  assert (Hstart : exists s3 e3,
             onmessage (at_clock next) (env_in next) (env_out next)
               (payload next) s2 = Some (s3, e3) /\
             scheduledStart e3 = Some (Qmax (nextStartTimeRef s2) (at_clock next))).
  { unfold onmessage.
    destruct (playChunk_scheduled (at_clock next) (payload next) s2 ctx dur
                O2 Ha) as [p [Hp _]].
    rewrite Hp. destruct (interrupt (payload next) p) as [s3 e3].
    eexists _, _. split; reflexivity. }
  destruct Hstart as [s3 [e3 [E3 T3]]].
  exists s1, e1, s2, e2, s3, e3, (Qmax (nextStartTimeRef s2) (at_clock next)).
  split; [exact E1|]. split; [exact N1|]. split; [exact S1|].
  split; [exact M1|]. split.
  - rewrite St. destruct (audio (payload i)); [|apply incl_refl].
    unfold set_add. destruct (existsb _ _); [apply incl_refl|].
    now apply incl_appl, incl_refl.
  - split; [exact E2|]. split; [exact Q2|].
    split; [exact E3|]. split; [exact T3|].
    rewrite N2. now apply Q.max_r.
Qed.

(* ------------------------------------------------------------------ *)
(** ** The scenario of the specification, evaluated *)

Example scenario_transcript :
  addMessages user [(env_at 1000 "0.25", whatIs);
                    (env_at 1200 "0.5", whatIsGravity)] []
  = [ {| id := lit "0.25"; role := user; text := whatIsGravity;
         timestamp := 1200 |} ].
Proof. vm_compute. reflexivity. Qed.

Example scenario_two_chunks :
  deliverAll [answer1; answer2] connected
  = Some (after [answer1; answer2] connected,
          [SourceStart 2 0; SourceStart 3 (Qmax (0 + (6 # 5)) (1 # 2))]) /\
  (Qmax (0 + (6 # 5)) (1 # 2) == 6 # 5)%Q /\
  (nextStartTimeRef (after [answer1; answer2] connected) == 2)%Q /\
  sourcesRef (after [answer1; answer2] connected) = [2; 3] /\
  mehuStatus (after [answer1; answer2] connected) = speaking.
Proof. vm_compute. repeat split. Qed.

Example scenario_barge_in :
  deliver (arriving (3 # 2) bargeIn) (after [answer1; answer2] connected)
  = Some (after [answer1; answer2; arriving (3 # 2) bargeIn] connected,
          [SourceStop 2; SourceStop 3]) /\
  nextStartTimeRef (after [answer1; answer2; arriving (3 # 2) bargeIn] connected)
    = 0%Q /\
  sourcesRef (after [answer1; answer2; arriving (3 # 2) bargeIn] connected)
    = [] /\
  mehuStatus (after [answer1; answer2; arriving (3 # 2) bargeIn] connected)
    = idle.
Proof. vm_compute. repeat split. Qed.

(** Stopping and starting again: the cursor of the stopped session is
    still in place, so the first chunk of the new session, arriving when
    the clock of the new output context reads zero, is started at 1.2 s. *)
Example restart_keeps_cursor :
  scheduledStart
    (snd (match deliver answer1
                  (startLiveSession_connected 8
                     (onopen (startLiveSession_begin
                                (fst (stopLiveSession playing)))))
          with Some r => r | None => (initial, []) end))
  = Some (0 + (6 # 5))%Q.
Proof. vm_compute. reflexivity. Qed.

(** The last source to end brings the status back to [idle]. *)
Example scenario_ended :
  mehuStatus (onended 2 (after [answer1; answer2] connected)) = speaking /\
  mehuStatus (onended 3 (onended 2 (after [answer1; answer2] connected)))
    = idle.
Proof. vm_compute. split; reflexivity. Qed.

(* ------------------------------------------------------------------ *)
(** ** The theorems at sample inputs *)

Lemma growing_run_one_entry_witness :
  growing whatIs [(env_at 1200 "0.5", whatIsGravity)] /\
  exists front m1 m,
    addMessage (env_at 1000 "0.25") user whatIs [] = front ++ [m1] /\
    front = (if coalesces user whatIs [] then slice_0_m1 [] else []) /\
    addMessages user [(env_at 1000 "0.25", whatIs);
                      (env_at 1200 "0.5", whatIsGravity)] []
      = front ++ [m] /\
    id m = id m1 /\ role m = user /\
    text m = lastText whatIs [(env_at 1200 "0.5", whatIsGravity)].
Proof.
  assert (H : growing whatIs [(env_at 1200 "0.5", whatIsGravity)]).
  { split; [|exact I]. exists [], (lit " gravity?"). vm_compute. reflexivity. }
  split; [exact H|].
  exact (growing_run_one_entry user (env_at 1000 "0.25") whatIs
           [(env_at 1200 "0.5", whatIsGravity)] [] H).
Defined.

Lemma chunks_back_to_back_witness :
  exists s1 e1 s2 e2 s3 e3 t1 t2 t3,
    deliver answer1 connected = Some (s1, e1) /\ scheduledStart e1 = Some t1 /\
    deliver answer2 s1 = Some (s2, e2) /\ scheduledStart e2 = Some t2 /\
    deliver answer3 s2 = Some (s3, e3) /\ scheduledStart e3 = Some t3 /\
    (t2 == t1 + (6 # 5))%Q /\ (t3 == t2 + (4 # 5))%Q /\
    (nextStartTimeRef s3 == (6 # 5) + (4 # 5) + (1 # 2))%Q.
Proof.
  apply (chunks_back_to_back connected 1 answer1 answer2 answer3
           (6 # 5) (4 # 5) (1 # 2));
    vm_compute; first [reflexivity | discriminate].
Defined.

Lemma interruption_resets_schedule_witness :
  exists s1 e1 s2 e2 s3 e3 t,
    deliver (arriving (3 # 2) bargeIn) (after [answer1; answer2] connected)
      = Some (s1, e1) /\
    nextStartTimeRef s1 = 0%Q /\ sourcesRef s1 = [] /\ mehuStatus s1 = idle /\
    incl (sourcesRef (after [answer1; answer2] connected)) (stoppedSources e1) /\
    deliverAll [arriving (8 # 5) (heard "Wait")] s1 = Some (s2, e2) /\
    scheduledStart e2 = None /\
    deliver (arriving (9 # 5) (chunk (1 # 2))) s2 = Some (s3, e3) /\
    scheduledStart e3 = Some t /\
    (t == 9 # 5)%Q.
Proof.
  apply (interruption_resets_schedule (after [answer1; answer2] connected) 1
           (arriving (3 # 2) bargeIn) [arriving (8 # 5) (heard "Wait")]
           (arriving (9 # 5) (chunk (1 # 2))) (1 # 2)).
  - vm_compute. reflexivity.
  - vm_compute. reflexivity.
  - repeat constructor.
  - vm_compute. reflexivity.
  - vm_compute. discriminate.
Defined.

Lemma sendText_request_then_settle_witness :
  (exists s1,
     handleSendText_submit (env_at 1000 "0.25") (typed (lit "hi")) =
       Awaiting s1 [PreventDefault;
                    GenerateContent (inputText (typed (lit "hi")))] /\
     messages s1 =
       addMessage (env_at 1000 "0.25") user (inputText (typed (lit "hi")))
         (messages (typed (lit "hi")))) /\
  requests [PreventDefault;
            GenerateContent (inputText (typed (lit "hi")))] = 1 /\
  sends [PreventDefault;
         GenerateContent (inputText (typed (lit "hi")))] = 0 /\
  (exists s',
     handleSendText_settle (env_at 1900 "0.5") Rejected
       (fst (outcome (firstn 5 overlapping) initial)) = Some s' /\
     messages s' =
       addMessage (env_at 1900 "0.5") mehu
         (lit "I had a little brain freeze. Can you say that again, bestie?")
         (messages (fst (outcome (firstn 5 overlapping) initial))) /\
     if coalesces mehu
          (lit "I had a little brain freeze. Can you say that again, bestie?")
          (messages (fst (outcome (firstn 5 overlapping) initial)))
     then length (messages s') =
            length (messages (fst (outcome (firstn 5 overlapping) initial))) /\
          exists lastMsg,
            lastOf (messages (fst (outcome (firstn 5 overlapping) initial)))
              = Some lastMsg /\
            role lastMsg = mehu /\
            lastOf (messages s') =
              Some {| id := id lastMsg; role := mehu;
                      text := lit "I had a little brain freeze. Can you say that again, bestie?";
                      timestamp := date (env_at 1900 "0.5") |}
     else messages s' =
            messages (fst (outcome (firstn 5 overlapping) initial)) ++
            [newEntry (env_at 1900 "0.5") mehu
               (lit "I had a little brain freeze. Can you say that again, bestie?")]) /\
  (exists s',
     handleSendText (env_at 1000 "0.25") (env_at 1900 "0.5") Rejected
       (typed (lit "hi")) =
       Some (s', [PreventDefault;
                  GenerateContent (inputText (typed (lit "hi")))]) /\
     messages s' =
       addMessage (env_at 1000 "0.25") user (inputText (typed (lit "hi")))
         (messages (typed (lit "hi"))) ++
       [newEntry (env_at 1900 "0.5") mehu
          (lit "I had a little brain freeze. Can you say that again, bestie?")]).
Proof.
  apply (sendText_request_then_settle (env_at 1000 "0.25")
           (env_at 1900 "0.5") Rejected (typed (lit "hi"))
           (fst (outcome (firstn 5 overlapping) initial)));
    vm_compute; reflexivity.
Defined.

(** Two submits one after the other, both requests pending, both
    rejected: the second submit is made with a non-blank input and no
    live session, two requests are issued, and the transcript ends with
    the two texts of the user and one entry of the assistant: the second
    fallback text rewrites the first, and the transcript is no longer
    after the second request has settled than before. *)
Lemma overlapping_submits_one_fallback :
  blank (inputText (fst (outcome (firstn 3 overlapping) initial))) = false /\
  liveSession (fst (outcome (firstn 3 overlapping) initial)) = None /\
  run overlapping initial = Some (outcome overlapping initial) /\
  requests (snd (outcome overlapping initial)) = 2 /\
  map role (messages (fst (outcome overlapping initial)))
    = [user; user; mehu] /\
  length (messages (fst (outcome overlapping initial)))
    = length (messages (fst (outcome (firstn 5 overlapping) initial))).
Proof. vm_compute. repeat split. Qed.

Lemma blank_submit_is_noop_witness :
  exists s' es,
    handleSendText (env_at 1000 "0.25") (env_at 1900 "0.5") (Resolved None)
      (typed [32; 9; 160; 8195]%N) = Some (s', es) /\
    s' = typed [32; 9; 160; 8195]%N /\
    messages s' = messages (typed [32; 9; 160; 8195]%N) /\
    es = [PreventDefault] /\ requests es = 0 /\ sends es = 0.
Proof.
  apply (blank_submit_is_noop (env_at 1000 "0.25") (env_at 1900 "0.5")
           (Resolved None) (typed [32; 9; 160; 8195]%N)).
  vm_compute. reflexivity.
Defined.

Lemma resolved_reply_not_empty_witness :
  exists s' es m,
    handleSendText (env_at 1000 "0.25") (env_at 1900 "0.5")
      (Resolved (Some [])) (typed (lit "hi")) = Some (s', es) /\
    messages s' =
      addMessage (env_at 1000 "0.25") user (inputText (typed (lit "hi")))
        (messages (typed (lit "hi"))) ++ [m] /\
    role m = mehu /\
    text m <> [] /\
    (Some (@nil N) = None \/ Some (@nil N) = Some [] -> text m = lit "...").
Proof.
  apply (resolved_reply_not_empty (env_at 1000 "0.25") (env_at 1900 "0.5")
           (Some []) (typed (lit "hi")));
    vm_compute; reflexivity.
Defined.

(* ================================================================== *)
(** * Further properties of the handlers *)

(* ------------------------------------------------------------------ *)
(** ** The transcript *)

Lemma addMessage_new (env : Fresh) (r : Role) (t : jsstring)
    (prev : list Message) :
  coalesces r t prev = false ->
  addMessage env r t prev = prev ++ [newEntry env r t].
Proof.
  intros H. pose proof (addMessage_cases env r t prev) as C.
  rewrite H in C. exact C.
Qed.

Lemma startsWith_length (t p : jsstring) :
  startsWith t p = true -> length p <= length t.
Proof.
  intros H. apply startsWith_spec in H. destruct H as [b ->].
  rewrite length_app. lia.
Qed.

Lemma includes_length (t p : jsstring) :
  includes t p = true -> length p <= length t.
Proof.
  intros H. apply includes_spec in H. destruct H as [a [b ->]].
  rewrite !length_app. lia.
Qed.

(** X1.  When every call of [addMessage] in a run is for another speaker
    than the call before it (and the first for another speaker than the
    last entry of the transcript, if it has one), no entry is rewritten:
    the transcript is kept whole and gains one new entry per call, in
    order. *)
Theorem switching_turns_one_entry_each
    (evs : list (Fresh * Role * jsstring)) (prev : list Message) :
  switching (option_map role (lastOf prev)) evs ->
  addTurns evs prev =
    prev ++ map (fun e => newEntry (fst (fst e)) (snd (fst e)) (snd e)) evs /\
  length (addTurns evs prev) = length prev + length evs.
Proof.
  revert prev. induction evs as [|[[env r] t] evs IH]; intros prev Hs.
  - cbn. rewrite app_nil_r. split; [reflexivity | lia].
  - destruct Hs as [Hr Hs]. cbn [addTurns map fst snd length].
    assert (Hn : addMessage env r t prev = prev ++ [newEntry env r t]).
    { apply addMessage_new. unfold coalesces.
      destruct (lastOf prev) as [m|]; [|reflexivity].
      destruct (role_eqb (role m) r) eqn:E; [|reflexivity].
      apply role_eqb_eq in E. cbn in Hr. congruence. }
    rewrite Hn.
    destruct (IH (prev ++ [newEntry env r t])) as [H1 H2].
    { rewrite lastOf_snoc. exact Hs. }
    split.
    + rewrite H1, <- app_assoc. reflexivity.
    + rewrite H2, length_app. cbn. lia.
Qed.

(** X2.  A text shorter than the text of the last entry never rewrites
    it, whoever speaks: [addMessage] keeps the transcript whole and adds
    a new entry. *)
Theorem shorter_text_new_entry (env : Fresh) (r : Role) (t : jsstring)
    (prev : list Message) (m : Message) :
  lastOf prev = Some m -> length t < length (text m) ->
  addMessage env r t prev = prev ++ [newEntry env r t].
Proof.
  intros Hl Hlen. apply addMessage_new. unfold coalesces. rewrite Hl.
  destruct (includes t (text m)) eqn:E; [|apply andb_false_r].
  apply includes_length in E. lia.
Qed.

(** X3.  [addMessage] never changes the [id] of an entry: the list of
    ids is the old one, followed by the new random id when an entry is
    created.  So when the ids were pairwise distinct and the random id is
    not among them, the ids are pairwise distinct afterwards. *)
Theorem addMessage_ids (env : Fresh) (r : Role) (t : jsstring)
    (prev : list Message) :
  NoDup (map id prev) -> ~ In (random env) (map id prev) ->
  map id (addMessage env r t prev) =
    (if coalesces r t prev then map id prev
     else map id prev ++ [random env]) /\
  NoDup (map id (addMessage env r t prev)).
Proof.
  intros Hnd Hfresh.
  assert (E : map id (addMessage env r t prev) =
              if coalesces r t prev then map id prev
              else map id prev ++ [random env]).
  { pose proof (addMessage_cases env r t prev) as C.
    destruct (coalesces r t prev).
    - destruct C as [l [Hp [_ [_ Ha]]]]. rewrite Ha.
      rewrite Hp at 2. now rewrite !map_app.
    - rewrite C. now rewrite map_app. }
  split; [exact E|]. rewrite E.
  destruct (coalesces r t prev); [exact Hnd|].
  apply NoDup_app; [exact Hnd | repeat constructor; intros [] |].
  intros x Hx [<- | []]. contradiction.
Qed.

(** X4.  A message that carries both transcriptions adds the user's text
    first and the assistant's after it, and the assistant's text always
    gets an entry of its own: it is never merged into an earlier entry of
    the assistant. *)
Theorem both_transcriptions_two_turns (envIn envOut : Fresh)
    (m : LiveServerMessage) (tin tout : jsstring) (s : State) :
  inputTranscription m = Some tin -> outputTranscription m = Some tout ->
  messages (transcribe envIn envOut m s) =
    addMessage envIn user tin (messages s) ++ [newEntry envOut mehu tout].
Proof.
  intros Hi Ho. unfold transcribe. rewrite Hi, Ho. cbn [messages setMessages].
  destruct (addMessage_last envIn user tin (messages s))
    as [front [l [Hm [Hr _]]]].
  rewrite Hm. apply addMessage_other_speaker. rewrite Hr. discriminate.
Qed.

(* ------------------------------------------------------------------ *)
(** ** The text form, with and without a live session *)

Lemma submit_live (envUser : Fresh) (s : State) (session : Handle) :
  blank (inputText s) = false -> liveSession s = Some session ->
  handleSendText_submit envUser s =
    Returned (setMessages (addMessage envUser user (inputText s))
                (setInputText [] s))
             [PreventDefault; SessionSend session (inputText s)].
Proof.
  intros Hb Hl. unfold handleSendText_submit. rewrite Hl.
  destruct (truthy (trim (inputText s))) eqn:E; [reflexivity|].
  apply trim_falsy in E. congruence.
Qed.

(** After [handleSendText] the input is blank: it was blank and is left
    as it was, or it has been emptied. *)
Lemma handleSendText_input (envUser envReply : Fresh) (c : Completion)
    (s s1 : State) (es : list Effect) :
  handleSendText envUser envReply c s = Some (s1, es) ->
  blank (inputText s1) = true.
Proof.
  unfold handleSendText. destruct (blank (inputText s)) eqn:Hb.
  - rewrite (submit_blank envUser s Hb). now intros [= <- _].
  - destruct (liveSession s) as [session|] eqn:Hl.
    + rewrite (submit_live envUser s session Hb Hl). now intros [= <- _].
    + rewrite (submit_one_shot envUser s Hb Hl).
      destruct c; cbn; now intros [= <- _].
Qed.

(** X5.  With a non-blank input and a live session, [handleSendText]
    sends the text over that session, exactly once and exactly as typed
    (not trimmed), and issues no completion request; the transcript gets
    the text as the user's turn, last, and the input is emptied.  How a
    completion request would settle plays no part. *)
Theorem sendText_live_session (envUser envReply : Fresh) (c : Completion)
    (s : State) (session : Handle) :
  blank (inputText s) = false -> liveSession s = Some session ->
  exists s' front m,
    handleSendText envUser envReply c s =
      Some (s', [PreventDefault; SessionSend session (inputText s)]) /\
    requests [PreventDefault; SessionSend session (inputText s)] = 0 /\
    sends [PreventDefault; SessionSend session (inputText s)] = 1 /\
    messages s' = addMessage envUser user (inputText s) (messages s) /\
    messages s' = front ++ [m] /\ role m = user /\ text m = inputText s /\
    inputText s' = [].
Proof.
  intros Hb Hl. unfold handleSendText.
  rewrite (submit_live envUser s session Hb Hl).
  destruct (addMessage_last envUser user (inputText s) (messages s))
    as [front [m [Hm [Hr Ht]]]].
  eexists _, front, m. split; [reflexivity|]. cbn [messages setMessages
    inputText setInputText]. now repeat split.
Qed.

(** X6.  Submitting again right after a submit does nothing: whatever
    the first [handleSendText] did, it left the input blank, so the
    second returns at once, with the state as it is and no request and no
    send. *)
Theorem second_submit_is_noop (envUser envReply envUser' envReply' : Fresh)
    (c c' : Completion) (s s1 : State) (es : list Effect) :
  handleSendText envUser envReply c s = Some (s1, es) ->
  handleSendText envUser' envReply' c' s1 = Some (s1, [PreventDefault]).
Proof.
  intros H. apply handleSendText_input in H. unfold handleSendText.
  now rewrite (submit_blank envUser' s1 H).
Qed.

(** X7.  [handleSendText] never touches the session or the playback: the
    liveness flag, the status, the session and context references, the
    cursor and the set of scheduled sources are the ones before, and it
    neither starts nor stops a source nor closes anything. *)
Theorem handleSendText_frame (envUser envReply : Fresh) (c : Completion)
    (s s' : State) (es : list Effect) :
  handleSendText envUser envReply c s = Some (s', es) ->
  isLive s' = isLive s /\ mehuStatus s' = mehuStatus s /\
  sessionRef s' = sessionRef s /\
  audioContextRef s' = audioContextRef s /\
  outputAudioContextRef s' = outputAudioContextRef s /\
  nextStartTimeRef s' = nextStartTimeRef s /\
  sourcesRef s' = sourcesRef s /\
  scheduledStart es = None /\ stoppedSources es = [] /\ closes es = 0.
Proof.
  unfold handleSendText, handleSendText_submit, handleSendText_settle.
  destruct (negb (truthy (trim (inputText s)))).
  - intros [= <- <-]. now repeat split.
  - destruct (liveSession s); [|destruct c]; intros [= <- <-];
      now repeat split.
Qed.

(* ------------------------------------------------------------------ *)
(** ** Playback, whenever the chunks arrive *)

Lemma Qmax_choice (x y : Q) : Qmax x y = x \/ Qmax x y = y.
Proof.
  unfold Qmax, GenericMinMax.gmax. destruct (Qcompare x y); auto.
Qed.

(** X8.  Chunks handled one after the other, none with the interruption
    flag, whatever the clock reads when each arrives: every chunk is
    started, no chunk starts before the end of the chunk before it (no
    overlap) nor before the clock reading at its arrival (never in the
    past), and it starts exactly at the later of the two. *)
Theorem chunks_never_overlap (ds : list Delivery) (s : State) (ctx : Handle) :
  outputAudioContextRef s = Some ctx -> Forall chunkOnly ds ->
  exists s' es,
    deliverAll ds s = Some (s', es) /\
    length (scheduledStarts es) = length ds /\
    wellSpaced (nextStartTimeRef s) ds (scheduledStarts es).
Proof.
  revert s. induction ds as [|d ds IH]; intros s Hc Hall.
  - exists s, []. now repeat split.
  - inversion Hall as [|x l [Ha Hi] Hds]; subst.
    destruct (audio (payload d)) as [dur|] eqn:Ea; [|now elim Ha].
    destruct (onmessage_chunk (at_clock d) (env_in d) (env_out d) (payload d)
                s ctx dur Hc Ea Hi) as [s1 [E1 [N1 [_ [_ O1]]]]].
    destruct (IH s1 O1 Hds) as [s' [es [E [L W]]]].
    cbn [deliverAll]. unfold deliver. rewrite E1, E.
    eexists _, _. split; [reflexivity|].
    cbn [app scheduledStarts length wellSpaced]. rewrite Ea, L.
    split; [reflexivity|].
    split; [apply Q.le_max_l|]. split; [apply Q.le_max_r|].
    split; [apply Qmax_choice|]. now rewrite <- N1.
Qed.

Lemma endAll_snoc (hs : list Handle) (h : Handle) (s : State) :
  endAll (hs ++ [h]) s = onended h (endAll hs s).
Proof.
  revert s. induction hs as [|x hs IH]; intros s; [reflexivity|].
  cbn [app endAll]. apply IH.
Qed.

Lemma onended_sources (h : Handle) (s : State) :
  sourcesRef (onended h s) = set_delete h (sourcesRef s).
Proof.
  unfold onended. cbn. now destruct (set_delete h (sourcesRef s)).
Qed.

Lemma onended_status (h : Handle) (s : State) :
  mehuStatus (onended h s) =
    match set_delete h (sourcesRef s) with
    | [] => idle
    | _ :: _ => mehuStatus s
    end.
Proof.
  unfold onended. cbn. now destruct (set_delete h (sourcesRef s)).
Qed.

Lemma endAll_sources (hs : list Handle) (s : State) :
  sourcesRef (endAll hs s) =
    filter (fun y => negb (existsb (Nat.eqb y) hs)) (sourcesRef s).
Proof.
  revert s. induction hs as [|h hs IH]; intros s.
  - cbn. induction (sourcesRef s) as [|x l IHl]; [reflexivity|].
    cbn. now rewrite <- IHl.
  - cbn [endAll]. rewrite IH, onended_sources. unfold set_delete.
    induction (sourcesRef s) as [|x l IHl]; [reflexivity|].
    cbn [filter existsb]. rewrite (Nat.eqb_sym h x).
    destruct (Nat.eqb x h); cbn [negb orb filter]; [exact IHl|].
    destruct (existsb (Nat.eqb x) hs); cbn [negb]; [exact IHl|].
    now rewrite IHl.
Qed.

(** X9.  Once the ['ended'] event has fired for every scheduled source,
    in any order and possibly for other sources too, the set of scheduled
    sources is empty and the status is [idle], whatever it was. *)
Theorem all_ended_idle (hs : list Handle) (s : State) :
  hs <> [] -> incl (sourcesRef s) hs ->
  sourcesRef (endAll hs s) = [] /\ mehuStatus (endAll hs s) = idle.
Proof.
  intros Hne Hincl.
  assert (Hs : sourcesRef (endAll hs s) = []).
  { rewrite endAll_sources.
    assert (G : forall l, incl l hs ->
                filter (fun y => negb (existsb (Nat.eqb y) hs)) l = []).
    { induction l as [|x l IHl]; intros Hl; [reflexivity|].
      cbn [filter].
      assert (Hx : existsb (Nat.eqb x) hs = true).
      { apply existsb_exists. exists x. split.
        - apply Hl. now left.
        - apply Nat.eqb_refl. }
      rewrite Hx. cbn. apply IHl. intros y Hy. apply Hl. now right. }
    now apply G. }
  split; [exact Hs|].
  destruct hs as [|h hs] using rev_ind; [now elim Hne|].
  rewrite endAll_snoc in *. rewrite onended_status.
  rewrite onended_sources in Hs. now rewrite Hs.
Qed.

(* ------------------------------------------------------------------ *)
(** ** What every handler keeps *)

Lemma set_add_fresh (x : Handle) (l : list Handle) :
  ~ In x l -> set_add x l = l ++ [x].
Proof.
  intros H. unfold set_add. destruct (existsb (Nat.eqb x) l) eqn:E;
    [|reflexivity].
  apply existsb_exists in E. destruct E as [y [Hy Hxy]].
  apply Nat.eqb_eq in Hxy. subst. contradiction.
Qed.

Lemma playChunk_inv (c : Q) (m : LiveServerMessage) (s s1 : State)
    (e1 : list Effect) :
  playbackInv s -> playChunk c m s = Some (s1, e1) -> playbackInv s1.
Proof.
  intros [Hnd [Hlt [Hsp Hout]]] H.
  destruct (audio m) as [dur|] eqn:Ea.
  - destruct (outputAudioContextRef s) as [ctx|] eqn:Ec.
    + destruct (playChunk_scheduled c m s ctx dur Ec Ea)
        as [s2 [E [_ [S2 [_ [O2 A2]]]]]].
      rewrite E in H. injection H as <- _.
      assert (Hfresh : ~ In (allocated s) (sourcesRef s)).
      { intros Hin. apply Hlt in Hin. lia. }
      rewrite (set_add_fresh _ _ Hfresh) in S2.
      unfold playbackInv. rewrite S2, O2, A2. repeat split.
      * apply NoDup_app; [exact Hnd | repeat constructor; intros [] |].
        intros x Hx [<- | []]. contradiction.
      * intros h Hin. apply in_app_or in Hin.
        destruct Hin as [Hin | [<- | []]]; [apply Hlt in Hin|]; lia.
      * intros _ E0. apply app_eq_nil in E0. destruct E0; discriminate.
      * discriminate.
    + unfold playChunk in H. rewrite Ea in H. cbn in H. rewrite Ec in H.
      discriminate.
  - unfold playChunk in H. rewrite Ea in H. injection H as <- _.
    now repeat split.
Qed.

Lemma interrupt_inv (m : LiveServerMessage) (s : State) :
  playbackInv s -> playbackInv (fst (interrupt m s)).
Proof.
  intros H. unfold interrupt. destruct (interrupted m); [|exact H].
  destruct H as [_ [_ [_ _]]]. unfold playbackInv. cbn.
  repeat split; try constructor; try contradiction; discriminate.
Qed.

Lemma transcribe_inv (envIn envOut : Fresh) (m : LiveServerMessage)
    (s : State) :
  playbackInv s -> playbackInv (transcribe envIn envOut m s).
Proof.
  unfold playbackInv.
  destruct (transcribe_playback envIn envOut m s) as [_ [T2 [T3 [T4 T5]]]].
  now rewrite T2, T3, T4, T5.
Qed.

Lemma onmessage_inv (c : Q) (envIn envOut : Fresh) (m : LiveServerMessage)
    (s s' : State) (es : list Effect) :
  playbackInv s -> onmessage c envIn envOut m s = Some (s', es) ->
  playbackInv s'.
Proof.
  intros Hinv H. unfold onmessage in H.
  destruct (playChunk c m s) as [[s1 e1]|] eqn:Ep; [|discriminate].
  pose proof (interrupt_inv m s1 (playChunk_inv c m s s1 e1 Hinv Ep)) as Hi.
  destruct (interrupt m s1) as [s2 e2]. injection H as <- _.
  now apply transcribe_inv.
Qed.

Lemma onended_inv (h : Handle) (s : State) :
  playbackInv s -> playbackInv (onended h s).
Proof.
  intros [Hnd [Hlt [Hsp Hout]]]. unfold playbackInv.
  rewrite onended_sources, onended_status.
  assert (Hsub : forall x, In x (set_delete h (sourcesRef s)) ->
                           In x (sourcesRef s)).
  { intros x Hx. apply filter_In in Hx. tauto. }
  assert (Ha : allocated (onended h s) = allocated s).
  { unfold onended. cbn. now destruct (set_delete h (sourcesRef s)). }
  assert (Ho : outputAudioContextRef (onended h s) = outputAudioContextRef s).
  { unfold onended. cbn. now destruct (set_delete h (sourcesRef s)). }
  rewrite Ha, Ho. repeat split.
  - now apply NoDup_filter.
  - intros x Hx. auto.
  - destruct (set_delete h (sourcesRef s)); [discriminate|].
    intros _. discriminate.
  - intros Hne. apply Hout. intros E. apply Hne.
    destruct (set_delete h (sourcesRef s)) as [|x l] eqn:Ed; [reflexivity|].
    specialize (Hsub x (or_introl eq_refl)). rewrite E in Hsub. elim Hsub.
Qed.

Lemma submit_state (envUser : Fresh) (s : State) :
  exists s' es,
    (handleSendText_submit envUser s = Returned s' es \/
     handleSendText_submit envUser s = Awaiting s' es) /\
    sourcesRef s' = sourcesRef s /\ allocated s' = allocated s /\
    mehuStatus s' = mehuStatus s /\
    outputAudioContextRef s' = outputAudioContextRef s.
Proof.
  unfold handleSendText_submit.
  destruct (negb (truthy (trim (inputText s)))).
  - eexists _, _. split; [left; reflexivity|]. now repeat split.
  - destruct (liveSession s).
    + eexists _, _. split; [left; reflexivity|]. now repeat split.
    + eexists _, _. split; [right; reflexivity|]. now repeat split.
Qed.

Lemma step_inv (e : Event) (s s' : State) (es : list Effect) :
  playbackInv s -> step e s = Some (s', es) -> playbackInv s'.
Proof.
  intros Hinv H. destruct e; cbn [step] in H;
    try (injection H as <- _; exact Hinv).
  - (* EvBegin *)
    injection H as <- _. unfold startLiveSession_begin.
    destruct (isLive s); [exact Hinv|].
    destruct Hinv as [Hnd [Hlt [Hsp Hout]]]. unfold playbackInv. cbn.
    repeat split; try assumption; try discriminate.
    intros h Hh. apply Hlt in Hh. lia.
  - (* EvOpen *)
    injection H as <- _. destruct Hinv as [Hnd [Hlt [Hsp Hout]]].
    unfold playbackInv. cbn. repeat split; try assumption; discriminate.
  - (* EvMessage *)
    unfold deliver in H. eapply onmessage_inv; eauto.
  - (* EvEnded *)
    injection H as <- _. now apply onended_inv.
  - (* EvStop *)
    assert (E : s' = fst (stopLiveSession s))
      by (injection H as H; now rewrite H).
    rewrite E, stopLiveSession_state.
    destruct Hinv as [Hnd [Hlt [Hsp Hout]]]. unfold playbackInv. cbn.
    repeat split; try assumption; discriminate.
  - (* EvSubmit *)
    destruct (submit_state envUser s) as [s1 [e1 [Hs [S1 [A1 [M1 O1]]]]]].
    assert (E : s' = s1).
    { destruct Hs as [Hs | Hs]; rewrite Hs in H; now injection H. }
    subst s1. unfold playbackInv. now rewrite S1, A1, M1, O1.
  - (* EvSettle *)
    unfold handleSendText_settle in H. destruct c; injection H as <- _;
      exact Hinv.
Qed.

Lemma run_inv (evs : list Event) :
  forall (s s' : State) (es : list Effect),
    playbackInv s -> run evs s = Some (s', es) -> playbackInv s'.
Proof.
  induction evs as [|e evs IH]; intros s s' es Hinv H.
  - injection H as <- _. exact Hinv.
  - cbn [run] in H. destruct (step e s) as [[s1 e1]|] eqn:E; [|discriminate].
    destruct (run evs s1) as [[s2 e2]|] eqn:R; [|discriminate].
    injection H as <- _. eapply IH; [|exact R]. eapply step_inv; eauto.
Qed.

Lemma initial_inv : playbackInv initial.
Proof.
  unfold playbackInv. cbn. repeat split; try constructor; try contradiction;
    discriminate.
Qed.

Lemma reachable_inv (s : State) : reachable s -> playbackInv s.
Proof.
  intros [evs [es H]]. eapply run_inv; [apply initial_inv | exact H].
Qed.

(** X10.  In every state the component can reach, the status is
    [speaking] only while at least one source is scheduled, and sources
    are scheduled only on an existing output context. *)
Theorem speaking_has_source (s : State) :
  reachable s -> mehuStatus s = speaking ->
  sourcesRef s <> [] /\ outputAudioContextRef s <> None.
Proof.
  intros Hr Hs. destruct (reachable_inv s Hr) as [_ [_ [Hsp Hout]]].
  split; [now apply Hsp | apply Hout; now apply Hsp].
Qed.

(** X11.  A message that carries both a chunk and the interruption flag,
    in any state the component can reach: the chunk is started and at
    once stopped together with every source scheduled before it; the set
    of sources is then empty, the cursor zero and the status [idle]. *)
Theorem chunk_with_interruption_discarded (c : Q) (envIn envOut : Fresh)
    (m : LiveServerMessage) (s : State) (ctx : Handle) (dur : Q) :
  reachable s -> outputAudioContextRef s = Some ctx ->
  audio m = Some dur -> interrupted m = true ->
  exists s',
    onmessage c envIn envOut m s =
      Some (s', SourceStart (allocated s) (Qmax (nextStartTimeRef s) c)
                :: map SourceStop (sourcesRef s ++ [allocated s])) /\
    sourcesRef s' = [] /\ nextStartTimeRef s' = 0%Q /\ mehuStatus s' = idle.
Proof.
  intros Hr Hc Ha Hi. destruct (reachable_inv s Hr) as [_ [Hlt _]].
  assert (Hfresh : ~ In (allocated s) (sourcesRef s)).
  { intros Hin. apply Hlt in Hin. lia. }
  destruct (playChunk_scheduled c m s ctx dur Hc Ha)
    as [s1 [Hp [_ [S1 _]]]].
  rewrite (set_add_fresh _ _ Hfresh) in S1.
  unfold onmessage, interrupt. rewrite Hp, Hi, S1.
  eexists. split; [reflexivity|].
  destruct (transcribe_playback envIn envOut m
              (setMehuStatus idle
                 (set_nextStartTimeRef 0%Q (set_sourcesRef [] s1))))
    as [T1 [T2 [T3 _]]].
  rewrite T1, T2, T3. now repeat split.
Qed.

Lemma step_started (e : Event) (s : State) :
  outputAudioContextRef s <> None ->
  exists s' es, step e s = Some (s', es) /\ outputAudioContextRef s' <> None.
Proof.
  intros Hc. destruct e; cbn [step];
    try (eexists _, _; split; [reflexivity | exact Hc]).
  - (* EvBegin *)
    eexists _, _. split; [reflexivity|]. unfold startLiveSession_begin.
    destruct (isLive s); [exact Hc | discriminate].
  - (* EvMessage *)
    unfold deliver, onmessage.
    destruct (outputAudioContextRef s) as [ctx|] eqn:Ec; [|now elim Hc].
    assert (Hp : exists s1 e1, playChunk (at_clock d) (payload d) s
                               = Some (s1, e1) /\
                               outputAudioContextRef s1 = Some ctx).
    { destruct (audio (payload d)) as [dur|] eqn:Ea.
      - destruct (playChunk_scheduled (at_clock d) (payload d) s ctx dur
                    Ec Ea) as [s1 [E [_ [_ [_ [O1 _]]]]]].
        eexists s1, _. split; [exact E | exact O1].
      - unfold playChunk. rewrite Ea. now exists s, []. }
    destruct Hp as [s1 [e1 [E O1]]]. rewrite E.
    destruct (interrupt (payload d) s1) as [s2 e2] eqn:Ei.
    eexists _, _. split; [reflexivity|].
    destruct (transcribe_playback (env_in d) (env_out d) (payload d) s2)
      as [_ [_ [_ [T4 _]]]].
    rewrite T4. unfold interrupt in Ei.
    destruct (interrupted (payload d)); injection Ei as <- _; cbn;
      rewrite O1; discriminate.
  - (* EvEnded *)
    eexists _, _. split; [reflexivity|]. unfold onended. cbn.
    now destruct (set_delete source (sourcesRef s)).
  - (* EvStop *)
    exists (fst (stopLiveSession s)), (snd (stopLiveSession s)).
    split; [now destruct (stopLiveSession s)|].
    destruct (stopLiveSession_playback s) as [_ [O _]]. now rewrite O.
  - (* EvSubmit *)
    destruct (submit_state envUser s) as [s1 [e1 [Hs [_ [_ [_ O1]]]]]].
    exists s1, e1. rewrite O1.
    destruct Hs as [-> | ->]; now split.
  - (* EvSettle *)
    unfold handleSendText_settle. destruct c;
      (eexists _, _; split; [reflexivity | exact Hc]).
Qed.

(** X12.  Once [startLiveSession] has created the output context, no
    handler clears the reference to it again, [stopLiveSession]
    included: whatever events are dispatched from a state that has an
    output context, the state they lead to has one.  So the context
    [onmessage] reads on line 119 is never [null] once a session has been
    started. *)
Theorem output_context_never_cleared (evs : list Event) (s s' : State)
    (es : list Effect) :
  outputAudioContextRef s <> None -> run evs s = Some (s', es) ->
  outputAudioContextRef s' <> None.
Proof.
  revert s es. induction evs as [|e evs IH]; intros s es Hc H.
  - injection H as <- _. exact Hc.
  - cbn [run] in H.
    destruct (step_started e s Hc) as [s1 [e1 [E1 O1]]]. rewrite E1 in H.
    destruct (run evs s1) as [[s2 e2]|] eqn:R; [|discriminate].
    injection H as <- _. exact (IH s1 e2 O1 R).
Qed.

(* ------------------------------------------------------------------ *)
(** ** The history of the transcript *)

Lemma keepsHistory_refl (l : list Message) : keepsHistory l l.
Proof. split; [lia | reflexivity]. Qed.

Lemma keepsHistory_trans (a b c : list Message) :
  keepsHistory a b -> keepsHistory b c -> keepsHistory a c.
Proof.
  intros [L1 F1] [L2 F2]. split; [lia|].
  intros k Hk. rewrite F2 by lia. now apply F1.
Qed.

Lemma addMessage_keepsHistory (env : Fresh) (r : Role) (t : jsstring)
    (prev : list Message) :
  keepsHistory prev (addMessage env r t prev).
Proof.
  pose proof (addMessage_cases env r t prev) as C.
  destruct (coalesces r t prev).
  - destruct C as [l [Hp [_ [_ Ha]]]]. rewrite Ha.
    assert (Hl : length prev = S (length (slice_0_m1 prev))).
    { rewrite Hp at 1. rewrite length_app. cbn. lia. }
    split.
    + rewrite length_app. cbn. lia.
    + intros k Hk. rewrite Hp at 2.
      rewrite !firstn_app.
      replace (k - length (slice_0_m1 prev)) with 0 by lia.
      reflexivity.
  - rewrite C. split.
    + rewrite length_app. lia.
    + intros k Hk. rewrite firstn_app.
      replace (k - length prev) with 0 by lia. cbn. apply app_nil_r.
Qed.

Lemma transcribe_keepsHistory (envIn envOut : Fresh) (m : LiveServerMessage)
    (s : State) :
  keepsHistory (messages s) (messages (transcribe envIn envOut m s)).
Proof.
  unfold transcribe.
  destruct (inputTranscription m), (outputTranscription m);
    cbn [messages setMessages].
  - eapply keepsHistory_trans; apply addMessage_keepsHistory.
  - apply addMessage_keepsHistory.
  - apply addMessage_keepsHistory.
  - apply keepsHistory_refl.
Qed.

Lemma onmessage_messages (c : Q) (envIn envOut : Fresh)
    (m : LiveServerMessage) (s s' : State) (es : list Effect) :
  onmessage c envIn envOut m s = Some (s', es) ->
  exists s2, messages s2 = messages s /\
             s' = transcribe envIn envOut m s2.
Proof.
  unfold onmessage, playChunk, interrupt.
  destruct (audio m); [cbn; destruct (outputAudioContextRef s);
                       [|discriminate]|];
    destruct (interrupted m); intros [= <- _]; eexists;
    (split; [|reflexivity]); reflexivity.
Qed.

Lemma step_keepsHistory (e : Event) (s s' : State) (es : list Effect) :
  isFlush e = false -> step e s = Some (s', es) ->
  keepsHistory (messages s) (messages s').
Proof.
  intros Hf H. destruct e; cbn [step] in H; try discriminate;
    try (injection H as <- _; apply keepsHistory_refl).
  - (* EvBegin *)
    injection H as <- _. unfold startLiveSession_begin.
    destruct (isLive s); apply keepsHistory_refl.
  - (* EvMessage *)
    unfold deliver in H. apply onmessage_messages in H.
    destruct H as [s2 [<- ->]]. apply transcribe_keepsHistory.
  - (* EvEnded *)
    injection H as <- _. unfold onended. cbn.
    destruct (set_delete source (sourcesRef s)); apply keepsHistory_refl.
  - (* EvStop *)
    assert (E : s' = fst (stopLiveSession s))
      by (injection H as H; now rewrite H).
    rewrite E, stopLiveSession_state. apply keepsHistory_refl.
  - (* EvSubmit *)
    unfold handleSendText_submit in H.
    destruct (negb (truthy (trim (inputText s)))).
    + injection H as <- _. apply keepsHistory_refl.
    + destruct (liveSession s); injection H as <- _;
        cbn [messages setMessages setInputText];
        apply addMessage_keepsHistory.
  - (* EvSettle *)
    unfold handleSendText_settle in H.
    destruct c; injection H as <- _; cbn [messages setMessages];
      apply addMessage_keepsHistory.
Qed.

(** X13.  Apart from the "Flush Memory" button no event ever removes or
    alters an entry of the transcript that is not the last one: over any
    sequence of events without a flush the transcript does not get
    shorter, and its entries before the last position of the transcript
    it started from stay what they were, in the same order. *)
Theorem history_is_kept (evs : list Event) (s s' : State)
    (es : list Effect) :
  forallb (fun e => negb (isFlush e)) evs = true ->
  run evs s = Some (s', es) ->
  length (messages s) <= length (messages s') /\
  firstn (length (messages s) - 1) (messages s')
    = firstn (length (messages s) - 1) (messages s).
Proof.
  intros Hf H.
  assert (K : keepsHistory (messages s) (messages s')).
  { revert s es Hf H. induction evs as [|e evs IH]; intros s es Hf H.
    - injection H as <- _. apply keepsHistory_refl.
    - cbn [forallb] in Hf. apply andb_true_iff in Hf. destruct Hf as [He Hf].
      apply negb_true_iff in He. cbn [run] in H.
      destruct (step e s) as [[s1 e1]|] eqn:E; [|discriminate].
      destruct (run evs s1) as [[s2 e2]|] eqn:R; [|discriminate].
      injection H as <- _.
      eapply keepsHistory_trans;
        [eapply step_keepsHistory; eauto | eapply IH; eauto]. }
  destruct K as [L F]. split; [exact L | now apply F].
Qed.

(* ------------------------------------------------------------------ *)
(** ** Which handler calls what *)

Lemma stops_are_stops (l : list Handle) :
  filter isRequest (map SourceStop l) = [] /\
  filter isSend (map SourceStop l) = [] /\
  filter isClose (map SourceStop l) = [].
Proof.
  induction l as [|x l [H1 [H2 H3]]]; cbn; now repeat split.
Qed.

(** X14.  Only a message with the interruption flag stops a source, only
    [stopLiveSession] closes the session or an audio context (at most one
    of each), and only a submit of the form issues a completion request
    or sends a text over the session, never both and never more than
    one. *)
Theorem who_calls_what (e : Event) (s s' : State) (es : list Effect) :
  step e s = Some (s', es) ->
  (isBargeIn e = false -> stoppedSources es = []) /\
  (isStop e = false -> closes es = 0) /\
  (isSubmit e = false -> requests es = 0 /\ sends es = 0) /\
  requests es + sends es <= 1 /\ closes es <= 2.
Proof.
  intros H. destruct e; cbn [step] in H;
    try (injection H as _ <-; cbn; repeat split; lia).
  - (* EvMessage *)
    unfold deliver, onmessage, playChunk, interrupt in H.
    unfold requests, sends, closes. cbn [isBargeIn isStop isSubmit].
    destruct (stops_are_stops (sourcesRef s)) as [R1 [R2 R3]].
    destruct (audio (payload d)).
    + cbn in H. destruct (outputAudioContextRef s); [|discriminate].
      cbn in H. destruct (interrupted (payload d)); injection H as _ <-.
      * destruct (stops_are_stops
                    (set_add (allocated s) (sourcesRef s))) as [A1 [A2 A3]].
        cbn. rewrite A1, A2, A3. cbn. repeat split; try lia; try discriminate.
      * cbn. repeat split; lia.
    + destruct (interrupted (payload d)); injection H as _ <-.
      * cbn. rewrite R1, R2, R3. cbn. repeat split; try lia; try discriminate.
      * cbn. repeat split; lia.
  - (* EvStop *)
    injection H as H. unfold stopLiveSession in H.
    destruct (sessionRef s); cbn in H; destruct (audioContextRef s);
      injection H as _ <-; cbn; repeat split; try lia; try discriminate.
  - (* EvSubmit *)
    unfold handleSendText_submit in H.
    destruct (negb (truthy (trim (inputText s)))).
    + injection H as _ <-. cbn. repeat split; try lia; try discriminate.
    + destruct (liveSession s); injection H as _ <-; cbn;
        repeat split; try lia; try discriminate.
  - (* EvSettle *)
    unfold handleSendText_settle in H.
    destruct c; injection H as _ <-; cbn; repeat split; lia.
Qed.

(* ------------------------------------------------------------------ *)
(** ** The theme *)

Lemma str_eqb_eq (a b : jsstring) : str_eqb a b = true <-> a = b.
Proof.
  revert b. induction a as [|x a IH]; intros [|y b]; cbn;
    try (split; [discriminate | discriminate]); [tauto|].
  rewrite andb_true_iff, N.eqb_eq, IH. split.
  - now intros [-> ->].
  - intros [= -> ->]. now split.
Qed.

Lemma toggleTheme_valid (t : jsstring) :
  t = Theme_LIGHT \/ t = Theme_DARK ->
  (toggleTheme t = Theme_LIGHT \/ toggleTheme t = Theme_DARK) /\
  toggleTheme t <> t /\ toggleTheme (toggleTheme t) = t.
Proof.
  intros [-> | ->]; vm_compute; repeat split; auto; discriminate.
Qed.

Lemma initTheme_valid_aux (saved : option jsstring) (prefersDark : bool) :
  initTheme saved prefersDark = Theme_LIGHT \/
  initTheme saved prefersDark = Theme_DARK.
Proof.
  unfold initTheme. destruct saved as [v|].
  - destruct (str_eqb v (lit "light")) eqn:E1.
    + apply str_eqb_eq in E1. now left.
    + destruct (str_eqb v (lit "dark")) eqn:E2; cbn [orb].
      * apply str_eqb_eq in E2. now right.
      * destruct prefersDark; auto.
  - destruct prefersDark; auto.
Qed.

(** X15.  The initial theme is always one of the two members of [Theme],
    whatever the storage holds: a stored ['light'] or ['dark'] is taken
    as it is, whatever the system prefers; with nothing stored, or
    anything else stored, the theme follows the system preference. *)
Theorem initTheme_total (saved : option jsstring) (prefersDark : bool) :
  (initTheme saved prefersDark = Theme_LIGHT \/
   initTheme saved prefersDark = Theme_DARK) /\
  initTheme (Some Theme_LIGHT) prefersDark = Theme_LIGHT /\
  initTheme (Some Theme_DARK) prefersDark = Theme_DARK /\
  (saved <> Some Theme_LIGHT -> saved <> Some Theme_DARK ->
   initTheme saved prefersDark =
     if prefersDark then Theme_DARK else Theme_LIGHT).
Proof.
  split; [|split; [|split]].
  - apply initTheme_valid_aux.
  - destruct prefersDark; reflexivity.
  - destruct prefersDark; reflexivity.
  - intros H1 H2. unfold initTheme. destruct saved as [v|]; [|reflexivity].
    destruct (str_eqb v (lit "light")) eqn:E1.
    + apply str_eqb_eq in E1. subst. now elim H1.
    + destruct (str_eqb v (lit "dark")) eqn:E2; [|reflexivity].
      apply str_eqb_eq in E2. subst. now elim H2.
Qed.

(** After mounting and any number of clicks the theme is a member of
    [Theme] and the page holds exactly what the effect wrote for it. *)
Lemma clicksTheme_synced (n : nat) (prefersDark : bool) (p : Page) :
  let st := clicksTheme n (mountTheme prefersDark p) in
  (fst st = Theme_LIGHT \/ fst st = Theme_DARK) /\
  snd st = {| stored := Some (fst st);
              darkClass := str_eqb (fst st) Theme_DARK |}.
Proof.
  assert (G : forall st,
             (fst st = Theme_LIGHT \/ fst st = Theme_DARK) ->
             snd st = {| stored := Some (fst st);
                         darkClass := str_eqb (fst st) Theme_DARK |} ->
             (fst (clicksTheme n st) = Theme_LIGHT \/
              fst (clicksTheme n st) = Theme_DARK) /\
             snd (clicksTheme n st) =
               {| stored := Some (fst (clicksTheme n st));
                  darkClass := str_eqb (fst (clicksTheme n st)) Theme_DARK |}).
  { induction n as [|n IH]; intros st Hv Hp; [now split|].
    cbn [clicksTheme]. apply IH.
    - apply (toggleTheme_valid (fst st) Hv).
    - reflexivity. }
  apply G.
  - apply initTheme_valid_aux.
  - reflexivity.
Qed.

(** X16.  The theme survives a reload: after mounting and any number of
    clicks on the theme button, mounting again on the page as it was left
    yields the theme last shown, whatever the system prefers by then, and
    the document root carries the class ['dark'] exactly when that theme
    is the dark one. *)
Theorem theme_survives_reload (n : nat) (prefersDark prefersDark' : bool)
    (p : Page) :
  fst (mountTheme prefersDark'
         (snd (clicksTheme n (mountTheme prefersDark p))))
    = fst (clicksTheme n (mountTheme prefersDark p)) /\
  stored (snd (clicksTheme n (mountTheme prefersDark p)))
    = Some (fst (clicksTheme n (mountTheme prefersDark p))) /\
  (darkClass (snd (clicksTheme n (mountTheme prefersDark p))) = true <->
   fst (clicksTheme n (mountTheme prefersDark p)) = Theme_DARK).
Proof.
  destruct (clicksTheme_synced n prefersDark p) as [Hv Hp].
  cbn zeta in Hv, Hp. rewrite Hp. cbn [snd fst mountTheme stored darkClass].
  split; [|split; [reflexivity | apply str_eqb_eq]].
  destruct Hv as [-> | ->]; destruct prefersDark'; reflexivity.
Qed.

(** X17.  Every click on the theme button switches to the other theme,
    and two clicks bring back the theme and the page as they were. *)
Theorem theme_click_switches (n : nat) (prefersDark : bool) (p : Page) :
  fst (clickTheme (clicksTheme n (mountTheme prefersDark p)))
    <> fst (clicksTheme n (mountTheme prefersDark p)) /\
  clickTheme (clickTheme (clicksTheme n (mountTheme prefersDark p)))
    = clicksTheme n (mountTheme prefersDark p).
Proof.
  destruct (clicksTheme_synced n prefersDark p) as [Hv Hp].
  cbn zeta in Hv, Hp.
  destruct (clicksTheme n (mountTheme prefersDark p)) as [t page].
  cbn [fst snd] in *. subst page.
  destruct (toggleTheme_valid t Hv) as [_ [Hne Hback]].
  split; [exact Hne|].
  unfold clickTheme. cbn [fst snd syncTheme]. now rewrite Hback.
Qed.

(* ------------------------------------------------------------------ *)
(** ** The metrics *)

Lemma slice_m20_snoc (l : list ScienceMetric) (x : ScienceMetric) :
  slice_m20 (l ++ [x]) = skipn (length l - 19) l ++ [x].
Proof.
  unfold slice_m20. rewrite length_app, skipn_app. cbn [length].
  replace (length l + 1 - 20) with (length l - 19) by lia.
  replace (length l - 19 - length l) with 0 by lia. reflexivity.
Qed.

Lemma slice_m20_length (l : list ScienceMetric) :
  length (slice_m20 l) = Nat.min (length l) 20.
Proof. unfold slice_m20. rewrite length_skipn. lia. Qed.

Lemma slice_m20_twice (l : list ScienceMetric) (x : ScienceMetric) :
  slice_m20 (slice_m20 l ++ [x]) = slice_m20 (l ++ [x]).
Proof.
  rewrite !slice_m20_snoc, slice_m20_length. unfold slice_m20.
  rewrite skipn_skipn. f_equal. f_equal. lia.
Qed.

Lemma slice_m20_short (l : list ScienceMetric) :
  length l <= 20 -> slice_m20 l = l.
Proof.
  intros H. unfold slice_m20. now replace (length l - 20) with 0 by lia.
Qed.

(** X18.  A tick puts the new point last and keeps the nineteen most
    recent points before it, in order, dropping any older ones; so after
    a tick the chart never holds more than twenty points, whatever it
    held before. *)
Theorem scienceTick_window (r : Reading) (prev : list ScienceMetric) :
  scienceTick r prev = skipn (length prev - 19) prev ++ [metricOf r] /\
  length (scienceTick r prev) = Nat.min (S (length prev)) 20.
Proof.
  unfold scienceTick. split.
  - apply slice_m20_snoc.
  - rewrite slice_m20_length, length_app. cbn. lia.
Qed.

(** X19.  Starting from at most twenty points, after any number of ticks
    the chart holds the last twenty of all the points there were and
    came, in the order they came. *)
Theorem scienceTicks_last_twenty (rs : list Reading)
    (prev : list ScienceMetric) :
  length prev <= 20 ->
  scienceTicks rs prev = slice_m20 (prev ++ map metricOf rs) /\
  length (scienceTicks rs prev) = Nat.min (length prev + length rs) 20.
Proof.
  intros Hlen.
  assert (G : forall l, scienceTicks rs (slice_m20 l)
                        = slice_m20 (l ++ map metricOf rs)).
  { induction rs as [|r rs IH]; intros l.
    - cbn. now rewrite app_nil_r.
    - cbn [scienceTicks map]. unfold scienceTick.
      rewrite slice_m20_twice, IH, <- app_assoc. reflexivity. }
  specialize (G prev). rewrite (slice_m20_short prev Hlen) in G.
  split; [exact G|].
  rewrite G, slice_m20_length, length_app, length_map. reflexivity.
Qed.

Lemma metricOf_inBand (r : Reading) : unitReading r -> inBand (metricOf r).
Proof.
  intros [H0 H1]. unfold inBand, metricOf. cbn [value]. split; lra.
Qed.

(** X20.  With [Math.random()] in its range, every plotted value lies
    between 40 and 60, both included: a chart whose points are in that
    band keeps them there over any number of ticks. *)
Theorem scienceTicks_inBand (rs : list Reading) (prev : list ScienceMetric) :
  Forall unitReading rs -> Forall inBand prev ->
  Forall inBand (scienceTicks rs prev).
Proof.
  revert prev. induction rs as [|r rs IH]; intros prev Hr Hp; [exact Hp|].
  inversion Hr as [|x l Hx Hl]; subst. cbn [scienceTicks]. apply IH; [exact Hl|].
  unfold scienceTick. rewrite slice_m20_snoc.
  apply Forall_app. split.
  - apply Forall_forall. intros m Hm.
    rewrite Forall_forall in Hp. apply Hp.
    rewrite <- (firstn_skipn (length prev - 19) prev).
    apply in_or_app. now right.
  - constructor; [now apply metricOf_inBand | constructor].
Qed.

(* ------------------------------------------------------------------ *)
(** ** The further properties at sample inputs *)

Lemma switching_turns_one_entry_each_witness :
  addTurns sampleTurns [] =
    [] ++ map (fun e => newEntry (fst (fst e)) (snd (fst e)) (snd e))
            sampleTurns /\
  length (addTurns sampleTurns []) = length (@nil Message) + length sampleTurns.
Proof.
  apply (switching_turns_one_entry_each sampleTurns []).
  cbn. repeat split; discriminate.
Defined.

Lemma shorter_text_new_entry_witness :
  addMessage (env_at 1200 "0.5") user whatIs asked =
    asked ++ [newEntry (env_at 1200 "0.5") user whatIs].
Proof.
  apply (shorter_text_new_entry (env_at 1200 "0.5") user whatIs asked
           (newEntry (env_at 1000 "0.25") user whatIsGravity)).
  - vm_compute. reflexivity.
  - vm_compute. lia.
Defined.

Lemma addMessage_ids_witness :
  map id (addMessage (env_at 1200 "0.5") mehu (lit "Gravity is") asked) =
    (if coalesces mehu (lit "Gravity is") asked then map id asked
     else map id asked ++ [random (env_at 1200 "0.5")]) /\
  NoDup (map id (addMessage (env_at 1200 "0.5") mehu (lit "Gravity is") asked)).
Proof.
  apply (addMessage_ids (env_at 1200 "0.5") mehu (lit "Gravity is") asked).
  - vm_compute. constructor; [intros [] | constructor].
  - vm_compute. intros [H | []]. discriminate H.
Defined.

Lemma both_transcriptions_two_turns_witness :
  messages (transcribe (env_at 1000 "0.25") (env_at 1200 "0.5") bothHeard
              connected) =
    addMessage (env_at 1000 "0.25") user whatIs (messages connected) ++
    [newEntry (env_at 1200 "0.5") mehu (lit "Gravity is")].
Proof.
  apply (both_transcriptions_two_turns (env_at 1000 "0.25")
           (env_at 1200 "0.5") bothHeard whatIs (lit "Gravity is") connected);
    vm_compute; reflexivity.
Defined.

Lemma sendText_live_session_witness :
  exists s' front m,
    handleSendText (env_at 1000 "0.25") (env_at 1900 "0.5") Rejected
      (onChange (lit " hi ") connected) =
      Some (s', [PreventDefault;
                 SessionSend 7 (inputText (onChange (lit " hi ") connected))]) /\
    requests [PreventDefault;
              SessionSend 7 (inputText (onChange (lit " hi ") connected))] = 0 /\
    sends [PreventDefault;
           SessionSend 7 (inputText (onChange (lit " hi ") connected))] = 1 /\
    messages s' =
      addMessage (env_at 1000 "0.25") user
        (inputText (onChange (lit " hi ") connected))
        (messages (onChange (lit " hi ") connected)) /\
    messages s' = front ++ [m] /\ role m = user /\
    text m = inputText (onChange (lit " hi ") connected) /\
    inputText s' = [].
Proof.
  apply (sendText_live_session (env_at 1000 "0.25") (env_at 1900 "0.5")
           Rejected (onChange (lit " hi ") connected) 7);
    vm_compute; reflexivity.
Defined.

Lemma second_submit_is_noop_witness :
  handleSendText (env_at 2000 "0.3") (env_at 2900 "0.4") (Resolved None)
    (fst sentHi) = Some (fst sentHi, [PreventDefault]).
Proof.
  apply (second_submit_is_noop (env_at 1000 "0.25") (env_at 1900 "0.5")
           (env_at 2000 "0.3") (env_at 2900 "0.4") Rejected (Resolved None)
           (typed (lit "hi")) (fst sentHi) (snd sentHi)).
  vm_compute. reflexivity.
Defined.

Lemma handleSendText_frame_witness :
  isLive (fst sentHi) = isLive (typed (lit "hi")) /\
  mehuStatus (fst sentHi) = mehuStatus (typed (lit "hi")) /\
  sessionRef (fst sentHi) = sessionRef (typed (lit "hi")) /\
  audioContextRef (fst sentHi) = audioContextRef (typed (lit "hi")) /\
  outputAudioContextRef (fst sentHi)
    = outputAudioContextRef (typed (lit "hi")) /\
  nextStartTimeRef (fst sentHi) = nextStartTimeRef (typed (lit "hi")) /\
  sourcesRef (fst sentHi) = sourcesRef (typed (lit "hi")) /\
  scheduledStart (snd sentHi) = None /\ stoppedSources (snd sentHi) = [] /\
  closes (snd sentHi) = 0.
Proof.
  apply (handleSendText_frame (env_at 1000 "0.25") (env_at 1900 "0.5")
           Rejected (typed (lit "hi")) (fst sentHi) (snd sentHi)).
  vm_compute. reflexivity.
Defined.

Lemma chunks_never_overlap_witness :
  exists s' es,
    deliverAll lateRun connected = Some (s', es) /\
    length (scheduledStarts es) = length lateRun /\
    wellSpaced (nextStartTimeRef connected) lateRun (scheduledStarts es).
Proof.
  apply (chunks_never_overlap lateRun connected 1).
  - vm_compute. reflexivity.
  - repeat (constructor; [split; [discriminate | reflexivity]|]).
    constructor.
Defined.

Lemma all_ended_idle_witness :
  sourcesRef (endAll [3; 2; 9] (after [answer1; answer2] connected)) = [] /\
  mehuStatus (endAll [3; 2; 9] (after [answer1; answer2] connected)) = idle.
Proof.
  apply (all_ended_idle [3; 2; 9] (after [answer1; answer2] connected)).
  - discriminate.
  - intros x Hx. vm_compute in Hx. cbn. tauto.
Defined.

Lemma chunk_with_interruption_discarded_witness :
  exists s',
    onmessage (1 # 2) (env_at 1000 "0.25") (env_at 1200 "0.5")
      chunkAndBargeIn playing =
      Some (s', SourceStart (allocated playing)
                  (Qmax (nextStartTimeRef playing) (1 # 2))
                :: map SourceStop (sourcesRef playing ++ [allocated playing])) /\
    sourcesRef s' = [] /\ nextStartTimeRef s' = 0%Q /\ mehuStatus s' = idle.
Proof.
  apply (chunk_with_interruption_discarded (1 # 2) (env_at 1000 "0.25")
           (env_at 1200 "0.5") chunkAndBargeIn playing 1 (1 # 2)).
  - exists toPlaying, [SourceStart 2 0%Q]. vm_compute. reflexivity.
  - vm_compute. reflexivity.
  - reflexivity.
  - reflexivity.
Defined.

Lemma speaking_has_source_witness :
  sourcesRef playing <> [] /\ outputAudioContextRef playing <> None.
Proof.
  apply (speaking_has_source playing).
  - exists toPlaying, [SourceStart 2 0%Q]. vm_compute. reflexivity.
  - vm_compute. reflexivity.
Defined.

Lemma output_context_never_cleared_witness :
  outputAudioContextRef (fst (outcome busy connected)) <> None.
Proof.
  apply (output_context_never_cleared busy connected
           (fst (outcome busy connected)) (snd (outcome busy connected))).
  - vm_compute. discriminate.
  - vm_compute. reflexivity.
Defined.

Lemma history_is_kept_witness :
  length (messages askedState)
    <= length (messages (fst (outcome busy askedState))) /\
  firstn (length (messages askedState) - 1)
    (messages (fst (outcome busy askedState)))
    = firstn (length (messages askedState) - 1) (messages askedState).
Proof.
  apply (history_is_kept busy askedState (fst (outcome busy askedState))
           (snd (outcome busy askedState)));
    vm_compute; reflexivity.
Defined.

Lemma who_calls_what_witness :
  (isBargeIn EvStop = false ->
   stoppedSources (snd (stopLiveSession playing)) = []) /\
  (isStop EvStop = false -> closes (snd (stopLiveSession playing)) = 0) /\
  (isSubmit EvStop = false ->
   requests (snd (stopLiveSession playing)) = 0 /\
   sends (snd (stopLiveSession playing)) = 0) /\
  requests (snd (stopLiveSession playing))
    + sends (snd (stopLiveSession playing)) <= 1 /\
  closes (snd (stopLiveSession playing)) <= 2.
Proof.
  apply (who_calls_what EvStop playing (fst (stopLiveSession playing))
           (snd (stopLiveSession playing))).
  vm_compute. reflexivity.
Defined.

Lemma scienceTicks_last_twenty_witness :
  scienceTicks sampleReadings [] =
    slice_m20 ([] ++ map metricOf sampleReadings) /\
  length (scienceTicks sampleReadings []) =
    Nat.min (length (@nil ScienceMetric) + length sampleReadings) 20.
Proof.
  apply (scienceTicks_last_twenty sampleReadings []). cbn. lia.
Defined.

Lemma scienceTicks_inBand_witness :
  Forall inBand (scienceTicks sampleReadings []).
Proof.
  apply (scienceTicks_inBand sampleReadings []).
  - repeat (constructor; [split; vm_compute;
                          first [reflexivity | discriminate]|]).
    constructor.
  - constructor.
Defined.

(* ------------------------------------------------------------------ *)
(** ** The cursor *)

Lemma step_cursor (e : Event) (s s' : State) (es : list Effect) :
  steady e -> step e s = Some (s', es) ->
  (nextStartTimeRef s <= nextStartTimeRef s')%Q.
Proof.
  intros Hs H. destruct e; cbn [step] in H;
    try (injection H as <- _; apply Qle_refl).
  - (* EvBegin *)
    injection H as <- _. unfold startLiveSession_begin.
    destruct (isLive s); apply Qle_refl.
  - (* EvMessage *)
    destruct Hs as [Hi Hd]. unfold deliver in H.
    destruct (audio (payload d)) as [dur|] eqn:Ea.
    + destruct (outputAudioContextRef s) as [ctx|] eqn:Ec.
      * destruct (onmessage_chunk (at_clock d) (env_in d) (env_out d)
                    (payload d) s ctx dur Ec Ea Hi) as [s1 [E1 [N1 _]]].
        rewrite E1 in H. injection H as <- _. rewrite N1.
        pose proof (Q.le_max_l (nextStartTimeRef s) (at_clock d)). lra.
      * unfold onmessage, playChunk in H. rewrite Ea in H. cbn in H.
        rewrite Ec in H. discriminate.
    + unfold onmessage, playChunk, interrupt in H. rewrite Ea, Hi in H.
      injection H as <- _.
      destruct (transcribe_playback (env_in d) (env_out d) (payload d) s)
        as [T1 _].
      rewrite T1. apply Qle_refl.
  - (* EvEnded *)
    injection H as <- _. unfold onended. cbn.
    destruct (set_delete source (sourcesRef s)); apply Qle_refl.
  - (* EvStop *)
    assert (E : s' = fst (stopLiveSession s))
      by (injection H as H; now rewrite H).
    destruct (stopLiveSession_playback s) as [_ [_ [N _]]].
    rewrite E, N. apply Qle_refl.
  - (* EvSubmit *)
    unfold handleSendText_submit in H.
    destruct (negb (truthy (trim (inputText s)))).
    + injection H as <- _. apply Qle_refl.
    + destruct (liveSession s); injection H as <- _; apply Qle_refl.
  - (* EvSettle *)
    unfold handleSendText_settle in H.
    destruct c; injection H as <- _; apply Qle_refl.
Qed.

(** X22.  Apart from a barge-in nothing moves the cursor backwards: over
    any sequence of events without an interruption flag, the chunks
    having durations that are not negative, the cursor at the end is not
    before the cursor at the start.  Stopping the session and starting
    another one leave it where it is. *)
Theorem cursor_never_backwards (evs : list Event) (s s' : State)
    (es : list Effect) :
  Forall steady evs -> run evs s = Some (s', es) ->
  (nextStartTimeRef s <= nextStartTimeRef s')%Q.
Proof.
  revert s es. induction evs as [|e evs IH]; intros s es Hs H.
  - injection H as <- _. apply Qle_refl.
  - inversion Hs as [|x l He Hl]; subst. cbn [run] in H.
    destruct (step e s) as [[s1 e1]|] eqn:E; [|discriminate].
    destruct (run evs s1) as [[s2 e2]|] eqn:R; [|discriminate].
    injection H as <- _.
    apply Qle_trans with (nextStartTimeRef s1).
    + eapply step_cursor; eauto.
    + eapply IH; eauto.
Qed.

Lemma run_back_to_back_witness :
  exists s' es,
    deliverAll [answer1; answer2; answer3] connected = Some (s', es) /\
    scheduledStarts es =
      startTimes (nextStartTimeRef connected) [answer1; answer2; answer3] /\
    nextStartTimeRef s' =
      advance (nextStartTimeRef connected) [answer1; answer2; answer3] /\
    outputAudioContextRef s' = Some 1.
Proof.
  apply (run_back_to_back [answer1; answer2; answer3] connected 1).
  - vm_compute. reflexivity.
  - vm_compute. repeat split; discriminate.
Defined.

Lemma cursor_never_backwards_witness :
  (nextStartTimeRef connected
   <= nextStartTimeRef (fst (outcome busy connected)))%Q.
Proof.
  apply (cursor_never_backwards busy connected (fst (outcome busy connected))
           (snd (outcome busy connected))).
  - unfold busy. repeat (constructor; [cbn; repeat split;
                                       try (vm_compute; discriminate)|]).
    constructor.
  - vm_compute. reflexivity.
Defined.
